(** * py_interface/ns3_util.py: settings expansion, CPU probe, process reaper
      and launch helpers of ns3-ai, embedded as Rocq functions.

    Conventions of the embedding.
    - A Python [dict] is the list of its items in insertion order (Python
      dicts keep that order); [popitem] removes the item inserted last.
    - A setting value is an integer, a string or a list of values.  These
      cover both outcomes of [isinstance(value, Iterable)]: an integer is
      not iterable, a string iterates over its characters and a list over
      its elements.  Strings are [string]s of 8-bit characters, which is
      Python's [str] on ASCII text.
    - ['{}'.format(v)] is [format]: the decimal numeral of an integer and a
      string itself.  The text Python prints for a list object belongs to
      the interpreter; it is the section variable [repr_list].
    - The operating system (psutil, subprocess, os) is a record of the
      answers it gives; the functions thread the effects they perform. *)

From Stdlib Require Import ZArith QArith Lia Ascii String DecimalString Sorted Permutation.
From Equations Require Import Equations.
From stdpp Require Import gmap strings list.

Set Warnings "-register-all".

Local Open Scope string_scope.
Local Open Scope list_scope.

(** ** Values and dictionaries *)

Inductive pyval : Type :=
| VInt (z : Z)
| VStr (s : string)
| VList (l : list pyval).

Definition dict : Type := list (string * pyval).

(** [collections.abc.Iterable]: strings and lists are, integers are not. *)
Definition is_Iterable (v : pyval) : bool :=
  match v with
  | VInt _ => false
  | VStr _ | VList _ => true
  end.

(** Iterating a string yields its characters, each a one-character string. *)
Fixpoint chars (s : string) : list pyval :=
  match s with
  | EmptyString => []
  | String c s' => VStr (String c EmptyString) :: chars s'
  end.

(** The items a [for] loop over an iterable value visits. *)
Definition items_of (v : pyval) : list pyval :=
  match v with
  | VInt _ => []
  | VStr s => chars s
  | VList l => l
  end.

(** [dict.popitem()]: the remaining dictionary and the last item, [None] on
    the empty dictionary. *)
Fixpoint popitem (m : dict) : option (dict * (string * pyval)) :=
  match m with
  | [] => None
  | kv :: m' =>
      match popitem m' with
      | None => Some ([], kv)
      | Some (rest, last) => Some (kv :: rest, last)
      end
  end.

(** ** Strings *)

Definition str_of_Z (z : Z) : string := NilZero.string_of_int (Z.to_int z).
Definition str_of_nat (n : nat) : string := NilZero.string_of_uint (Nat.to_uint n).

Fixpoint lstrip (c : ascii) (s : string) : string :=
  match s with
  | EmptyString => EmptyString
  | String a s' => if Ascii.eqb a c then lstrip c s' else s
  end.

Fixpoint rstrip (c : ascii) (s : string) : string :=
  match s with
  | EmptyString => EmptyString
  | String a s' =>
      match rstrip c s' with
      | EmptyString => if Ascii.eqb a c then EmptyString else String a EmptyString
      | r => String a r
      end
  end.

(** [s.strip(c)] for a one-character set. *)
Definition strip (c : ascii) (s : string) : string := rstrip c (lstrip c s).

(** [s.startswith(p)]. *)
Fixpoint startswith (p s : string) : bool :=
  match p, s with
  | EmptyString, _ => true
  | String a p', String b s' => Ascii.eqb a b && startswith p' s'
  | String _ _, EmptyString => false
  end.

(** [needle in s]. *)
Fixpoint contains (needle s : string) : bool :=
  startswith needle s ||
  match s with
  | EmptyString => false
  | String _ s' => contains needle s'
  end.

(** ** Settings: [get_settings] and [get_setting] *)

Section Settings.

(** The text of a list object under ['{}'.format]. *)
Variable repr_list : list pyval -> string.

Definition format (v : pyval) : string :=
  match v with
  | VInt z => str_of_Z z
  | VStr s => s
  | VList l => repr_list l
  end.

(** Lines 101-102: a value that is not iterable becomes a one-item list. *)
Definition value_list (value : pyval) : list pyval :=
  if is_Iterable value then items_of value else [value].

(** Lines 106-107: the pair appended for the value [v] and the earlier
    pair [pre = (precmd, prefn)]. *)
Definition new_pair (key : string) (v : pyval) (pre : string * string)
  : string * string :=
  (fst pre +:+ " --" +:+ key +:+ "=" +:+ format v,
   strip "_" (snd pre +:+ "_" +:+ format v)).

(** Lines 103-107: the two nested loops, [for v in value] outside and
    [for precmd, prefn in ret] inside, appending to [newret]. *)
Definition newret (key : string) (value : pyval) (ret : list (string * string))
  : list (string * string) :=
  flat_map (fun v => map (new_pair key v) ret) (value_list value).

(** Lines 100-108 after the recursive call returned [(ret, file_name_format)]. *)
Definition extend_settings (key : string) (value : pyval)
    (r : list (string * string) * string) : list (string * string) * string :=
  (newret key value (fst r), strip "_" (snd r +:+ "_" +:+ key)).

Definition inspect {A : Type} (a : A) : {b : A | a = b} := exist _ a eq_refl.

(** Lines 95-108.  The recursive call is on the dictionary [popitem] left,
    which is shorter. *)
Equations get_settings (setting_map : dict) : list (string * string) * string
  by wf (length setting_map) lt :=
  get_settings setting_map with inspect (popitem setting_map) := {
    | exist _ None _ => ([("", "")], "")
    | exist _ (Some (rest, (key, value))) E =>
        extend_settings key value (get_settings rest) }.
Next Obligation.
  intros setting_map rest key value E _. revert rest E.
  induction setting_map as [|x m IH]; intros rest; simpl; [discriminate|].
  destruct (popitem m) as [[r l]|] eqn:Em.
  - intros [= <- ->]. simpl. specialize (IH _ eq_refl). lia.
  - intros [= <- _]. simpl. lia.
Defined.

(** Lines 111-115. *)
Definition get_setting (setting_map : dict) : string :=
  fold_left (fun ret kv => ret +:+ " --" +:+ fst kv +:+ "=" +:+ format (snd kv))
            setting_map "".

End Settings.

(** ** Effects: exceptions and the trace of what the code does to the system *)

Inductive exn : Type :=
| RuntimeError (msg : string)
| TypeError
| IndexError
| OSError
| SystemExit (code : Z)
| NoSuchProcess
| TimeoutExpired
| AccessDenied.

Inductive result (A : Type) : Type :=
| Ok (a : A)
| Raise (e : exn).
Arguments Ok {A} a.
Arguments Raise {A} e.

(** The arguments the source passes to [subprocess.Popen]: the shell
    command, the working directory, the environment ([None] inherits the
    parent's) and whether standard output goes to a pipe and standard error
    to devnull ([false]: both streams are inherited).  The value also stands
    for the process handle [Popen] returns. *)
Record popen_args : Type := {
  popen_cmd : string;
  popen_cwd : string;
  popen_env : option (gmap string string);
  popen_piped : bool
}.

Inductive event : Type :=
| Print (line : string)
| Popen (args : popen_args)
| Listdir (dir : string)
| CpuPercent
| Sleep (seconds : nat)
| System (cmd : string)
| Name (pid : Z)
| SendSigterm (pid : Z)
| Wait (pid : Z) (timeout : nat)
| Kill (pid : Z)
| WaitProcs (pids : list Z).

(** A computation logs events and either returns or raises. *)
Definition io (A : Type) : Type := list event * result A.

#[global] Instance io_ret : MRet io := fun A a => ([], Ok a).
#[global] Instance io_bind : MBind io := fun A B f m =>
  match m with
  | (t, Ok a) => let (t', r) := f a in (t ++ t', r)
  | (t, Raise e) => (t, Raise e)
  end.

Definition emit (e : event) : io unit := ([e], Ok tt).
Definition raise {A : Type} (e : exn) : io A := ([], Raise e).
(** An operating-system call: its event, then the answer the system gave. *)
Definition syscall {A : Type} (e : event) (answer : result A) : io A := ([e], answer).

(** [try: body except E: handler], [catches] telling which exceptions [E] is. *)
Definition try_except {A : Type} (body : io A) (catches : exn -> bool)
    (handler : io A) : io A :=
  match body with
  | (t, Raise e) => if catches e then let (t', r) := handler in (t ++ t', r)
                    else (t, Raise e)
  | ok => ok
  end.

Definition is_NoSuchProcess (e : exn) : bool :=
  match e with NoSuchProcess => true | _ => false end.
Definition is_TimeoutExpired (e : exn) : bool :=
  match e with TimeoutExpired => true | _ => false end.

(** ** CPU probe: [get_free_cpu] *)

Definition RESERVE_CPU : nat := 4.

(** [x < y] on utilisation figures; a finite float is a rational. *)
Definition Qltb (x y : Q) : bool := negb (Qle_bool y x).

(** [sorted(..., key=lambda x: x[1])]: Python's sort is stable; so is this
    insertion sort, which puts an item before the items of equal key that
    followed it in the input. *)
Fixpoint insert_by_util (x : nat * Q) (l : list (nat * Q)) : list (nat * Q) :=
  match l with
  | [] => [x]
  | y :: l' => if Qle_bool (snd x) (snd y) then x :: l else y :: insert_by_util x l'
  end.

Definition sorted_by_util (l : list (nat * Q)) : list (nat * Q) :=
  fold_right insert_by_util [] l.

(** Line 61. [sample] is what [psutil.cpu_percent(interval=1, percpu=True)]
    returned, [cpu_num] the module-level core count. *)
Definition get_free_cpu (cpu_num : nat) (sample : list Q) (perc : Q)
  : list (nat * Q) :=
  sorted_by_util
    (List.filter (fun x => Qltb (snd x) perc) (combine (seq 0 cpu_num) sample)).

(** ** Process tree reaper: [kill_proc_tree] *)

(** The answers of psutil, per process id.  A process that no longer exists
    when an operation reaches it answers [Raise NoSuchProcess]; the answers
    of different operations on one process are independent, so a process
    may vanish between any two of them. *)
Record psutil : Type := {
  Process : Z -> result unit;
  children : Z -> result (list Z);
  name : Z -> result string;
  send_signal : Z -> result unit;
  wait : Z -> result unit;
  kill : Z -> result unit;
  wait_procs : list Z -> list Z * list Z
}.

(** The three kinds of argument line 65-68 tells apart. *)
Inductive proc_arg : Type :=
| PidInt (pid : Z)
| PsutilProcess (pid : Z)
| OtherObject (pid : Z).

Section Reaper.

Variable ps : psutil.

(** Lines 74-77, the body of the inner [try]. *)
Definition perf_graceful (c : Z) : io unit :=
  emit (Print ("Terminating `perf` process: PID=" +:+ str_of_Z c));;
  syscall (SendSigterm c) (send_signal ps c);;
  syscall (Wait c 10) (wait ps c);;
  emit (Print ("`perf` process (PID=" +:+ str_of_Z c +:+ ") terminated successfully.")).

(** Lines 79-85, the handler of [except psutil.TimeoutExpired].  The
    [continue] of line 85 ends the iteration like a normal return. *)
Definition perf_escalate (c : Z) : io unit :=
  emit (Print ("`perf` process (PID=" +:+ str_of_Z c +:+ ") did not terminate with SIGTERM."));;
  emit (Print ("Sending SIGKILL to `perf` process: PID=" +:+ str_of_Z c));;
  try_except (syscall (Kill c) (kill ps c)) is_NoSuchProcess
    (emit (Print ("`perf` process (PID=" +:+ str_of_Z c +:+ ") no longer exists."))).

(** Lines 71-89, one iteration of [for c in ch]. *)
Definition reap_one (c : Z) : io unit :=
  try_except
    (nm ← syscall (Name c) (name ps c);
     if contains "perf" nm
     then try_except (perf_graceful c) is_TimeoutExpired (perf_escalate c)
     else syscall (Kill c) (kill ps c))
    is_NoSuchProcess
    (mret tt).

Fixpoint reap_all (ch : list Z) : io unit :=
  match ch with
  | [] => mret tt
  | c :: ch' => reap_one c;; reap_all ch'
  end.

(** Lines 65-68. *)
Definition resolve (p : proc_arg) : io Z :=
  match p with
  | PidInt pid => match Process ps pid with Ok _ => mret pid | Raise e => raise e end
  | PsutilProcess pid => mret pid
  | OtherObject pid => match Process ps pid with Ok _ => mret pid | Raise e => raise e end
  end.

(** Lines 64-92; the timeout and the callback are handed to
    [psutil.wait_procs], whose answer the record gives. *)
Definition kill_proc_tree (p : proc_arg) : io (list Z * list Z) :=
  p ← resolve p;
  desc ← (match children ps p with Ok l => mret l | Raise e => raise e end);
  let ch := p :: desc in
  reap_all ch;;
  syscall (WaitProcs ch) (Ok (wait_procs ps ch)).

End Reaper.

(** ** Build and launch driver: [build_ns3], [run_single_ns3] *)

Fixpoint endswith_char (c : ascii) (s : string) : bool :=
  match s with
  | EmptyString => false
  | String a EmptyString => Ascii.eqb a c
  | String _ s' => endswith_char c s'
  end.

(** [os.path.join(a, b)] on POSIX. *)
Definition path_join (a b : string) : string :=
  if startswith "/" b then b
  else if bool_decide (a = "") || endswith_char "/" a then a +:+ b
  else a +:+ "/" +:+ b.

Definition upper (a : ascii) : ascii :=
  let n := nat_of_ascii a in
  if (97 <=? n)%nat && (n <=? 122)%nat then ascii_of_nat (n - 32) else a.
Definition lower (a : ascii) : ascii :=
  let n := nat_of_ascii a in
  if (65 <=? n)%nat && (n <=? 90)%nat then ascii_of_nat (n + 32) else a.
Fixpoint lower_all (s : string) : string :=
  match s with
  | EmptyString => EmptyString
  | String a s' => String (lower a) (lower_all s')
  end.
(** [s.capitalize()] on ASCII text. *)
Definition capitalize (s : string) : string :=
  match s with
  | EmptyString => EmptyString
  | String a s' => String (upper a) (lower_all s')
  end.

(** [setting[k]] and [k in setting]; the keys of a dictionary are distinct. *)
Fixpoint dict_get (k : string) (m : dict) : option pyval :=
  match m with
  | [] => None
  | (k', v) :: m' => if bool_decide (k = k') then Some v else dict_get k m'
  end.

(** The answers of the operating system to the launch driver. *)
Record os : Type := {
  environ : gmap string string;
  abspath : string -> string;
  (** exit code of [./ns3 build] run in the given directory *)
  build_returncode : string -> Z;
  listdir : string -> result (list string);
  which : string -> option string;
  (** [str((Path(d) / "perf.data").resolve())] *)
  perf_data_path : string -> string
}.

Section Launch.

Variable repr_list : list pyval -> string.
Variable sys : os.

(** Lines 118-125, for a build process that could be started in [path]
    and ran to its end: [build_returncode] is the exit code [proc.wait()]
    leaves in [proc.returncode]. *)
Definition build_ns3 (path : string) : io bool :=
  emit (Print "=== NS3AI: BUILDING NS3 ===");;
  emit (Popen {| popen_cmd := "./ns3 build"; popen_cwd := path;
                 popen_env := None; popen_piped := true |});;
  mret (Z.eqb (build_returncode sys path) 0).

(** Lines 128-133; [exit(-1)] raises [SystemExit]. *)
Definition check_program_installed (program_name : string) : io string :=
  match which sys program_name with
  | None =>
      emit (Print ("Executable '" +:+ capitalize program_name +:+ "' was not found"));;
      raise (SystemExit (-1))
  | Some program_path => mret program_path
  end.

(** Lines 139-141.  [None] and the empty dictionary are both false in
    [if env]; item assignment on [None] raises [TypeError]. *)
Definition inject_env (path : string) (env : option (gmap string string))
  : io (gmap string string) :=
  match env with
  | None => raise TypeError
  | Some e =>
      let e := if bool_decide (e = ∅) then e else environ sys ∪ e in
      mret (<["LD_LIBRARY_PATH" :=
               abspath sys (path_join (path_join path "build") "lib")]> e)
  end.

(** Lines 136-160. *)
Definition run_single_ns3 (path pname : string) (setting : option dict)
    (env : option (gmap string string))
    (show_output profile_ns3 build : bool) : io popen_args :=
  failed ← (if build then ok ← build_ns3 path; mret (negb ok) else mret false);
  if (failed : bool)
  then raise (RuntimeError "run_single_ns3(): requested to build ns3, but build failed!")
  else
    env ← inject_env path env;
    let exec_path := path_join (path_join path "build") "scratch" in
    files ← syscall (Listdir (path_join exec_path pname))
                    (listdir sys (path_join exec_path pname));
    exec_name ← match List.filter (startswith "ns") files with
                | [] => raise IndexError
                | f :: _ => mret f
                end;
    let cmd := "./" +:+ pname +:+ "/" +:+ exec_name in
    let cmd := match setting with
               | Some ((_ :: _) as s) => cmd +:+ get_setting repr_list s
               | _ => cmd
               end in
    cmd ← (if profile_ns3
           then
             perf_cmd ← check_program_installed "perf";
             let base_out_dir :=
               match setting with
               | Some s => match dict_get "outDir" s with
                           | Some v => format repr_list v
                           | None => "."
                           end
               | None => "."
               end in
             let perf_options := "record -o " +:+ perf_data_path sys base_out_dir
                                 +:+ " -g -e cpu-cycles,context-switches" in
             mret (perf_cmd +:+ " " +:+ perf_options +:+ " bash -c '" +:+ cmd +:+ "'")
           else mret cmd);
    let proc := {| popen_cmd := cmd; popen_cwd := exec_path;
                   popen_env := Some env; popen_piped := negb show_output |} in
    emit (Popen proc);;
    mret proc.

End Launch.

(** ** Bulk launch scheduler: [run_bulk_ns3] *)

(** The scheduler's state: how many times the CPU probe ran, and the
    trace.  The [k]-th run of the probe (from 0) samples [cpu_percent k]. *)
Record sched : Type := { probes : nat; trace : list event }.

(** A run ends, raises, or is still inside a loop when the fuel is spent. *)
Inductive run (A : Type) : Type :=
| Finished (a : A)
| Failed (e : exn)
| Unfinished.
Arguments Finished {A} a.
Arguments Failed {A} e.
Arguments Unfinished {A}.

Section Bulk.

Variable repr_list : list pyval -> string.
Variable cpu_num : nat.
Variable cpu_percent : nat -> list Q.

(** Lines 172-173: [while len(cpus) < RESERVE_CPU: time.sleep(5)].  Each
    test of the condition costs one unit of fuel; [cpus] is not assigned
    in the loop. *)
Fixpoint wait_for_cpus (fuel : nat) (cpus : list (nat * Q)) (st : sched)
  : run sched :=
  match fuel with
  | O => Unfinished
  | S fuel' =>
      if (length cpus <? RESERVE_CPU)%nat
      then wait_for_cpus fuel' cpus
             {| probes := probes st; trace := trace st ++ [Sleep 5] |}
      else Finished st
  end.

(** Lines 171-176, one iteration of [for args, fn in params]. *)
Definition launch_pair (fuel : nat) (pname common_setting_param : string)
    (args fn : string) (st : sched) : run sched :=
  let cpus := get_free_cpu cpu_num (cpu_percent (probes st)) 20 in
  match wait_for_cpus fuel cpus
          {| probes := S (probes st); trace := trace st ++ [CpuPercent] |} with
  | Finished st' =>
      match cpus with
      | [] => Failed IndexError
      | (core, _) :: _ =>
          let cmd := "taskset -c " +:+ str_of_nat core +:+ " nohup ./waf --run "
                     +:+ pname +:+ common_setting_param +:+ args
                     +:+ " > " +:+ fn +:+ "&" in
          Finished {| probes := probes st'; trace := trace st' ++ [System cmd] |}
      end
  | Failed e => Failed e
  | Unfinished => Unfinished
  end.

Fixpoint launch_all (fuel : nat) (pname common_setting_param : string)
    (params : list (string * string)) (st : sched) : run sched :=
  match params with
  | [] => Finished st
  | (args, fn) :: params' =>
      match launch_pair fuel pname common_setting_param args fn st with
      | Finished st' => launch_all fuel pname common_setting_param params' st'
      | Failed e => Failed e
      | Unfinished => Unfinished
      end
  end.

(** Lines 163-176.  [fuel] bounds the condition tests of each wait loop. *)
Definition run_bulk_ns3 (fuel : nat) (path pname : string) (commons : dict)
    (settings : list dict) (debug : bool) : run sched :=
  let common_setting_param := get_setting repr_list commons in
  let params := flat_map (fun smap => fst (get_settings repr_list smap)) settings in
  launch_all fuel pname common_setting_param params {| probes := 0; trace := [] |}.

End Bulk.

(** ** Scoped change of directory: [cder] *)

(** [chdir cwd dir] is what [os.chdir(dir)] does when the working
    directory is [cwd]: the new working directory, or the error raised. *)
Record filesystem : Type := { chdir : string -> string -> result string }.

(** Lines 42-57.  An object of the class holds [dir], and [cwd] once
    entered. *)
Record cder : Type := { cder_dir : string; cder_cwd : option string }.

Section Cder.

Variable fs : filesystem.

(** [__init__]. *)
Definition cder_init (path : string) : cder :=
  {| cder_dir := path; cder_cwd := None |}.

(** [__enter__]: the object and the working directory afterwards. *)
Definition cder_enter (self : cder) (cwd : string) : result (cder * string) :=
  let self := {| cder_dir := cder_dir self; cder_cwd := Some cwd |} in
  match chdir fs cwd (cder_dir self) with
  | Ok cwd' => Ok (self, cwd')
  | Raise e => Raise e
  end.

(** [__exit__]: the working directory afterwards.  It returns [None], so
    an exception of the body is not swallowed. *)
Definition cder_exit (self : cder) (cwd : string) : result string :=
  match cder_cwd self with
  | Some saved => chdir fs cwd saved
  | None => Raise TypeError
  end.

(** [with cder(path): body], from the working directory [cwd]: the
    working directory afterwards and the outcome.  The body runs from the
    directory entered and leaves its own working directory and outcome; an
    error of [__exit__] replaces the body's. *)
Definition with_cder {A : Type} (path : string) (body : string -> string * result A)
    (cwd : string) : string * result A :=
  match cder_enter (cder_init path) cwd with
  | Raise e => (cwd, Raise e)
  | Ok (self, cwd1) =>
      let (cwd2, r) := body cwd1 in
      match cder_exit self cwd2 with
      | Ok cwd3 => (cwd3, r)
      | Raise e => (cwd2, Raise e)
      end
  end.

End Cder.

(** Directories [/] and [/tmp], reachable by their absolute paths. *)
Definition two_dirs : filesystem :=
  {| chdir := fun cwd dir =>
       if bool_decide (dir = "/") then Ok "/"
       else if bool_decide (dir = "/tmp") then Ok "/tmp"
       else if bool_decide (dir = "tmp") && bool_decide (cwd = "/") then Ok "/tmp"
       else Raise OSError |}.

(** ** Notions the statements use *)

(** How many items the loop of line 104 visits for a value: one for a
    value that is not iterable, the number of elements of a list, the number
    of characters of a string. *)
Definition cardinality (v : pyval) : nat :=
  match v with
  | VInt _ => 1
  | VStr s => String.length s
  | VList l => length l
  end.

Fixpoint cardinality_product (m : dict) : nat :=
  match m with
  | [] => 1
  | (_, v) :: m' => cardinality v * cardinality_product m'
  end.

(** The cardinality in the words of the specification: a value list counts
    its elements, a scalar value, integer or string, counts 1. *)
Definition scalar_cardinality (v : pyval) : nat :=
  match v with
  | VInt _ => 1
  | VStr _ => 1
  | VList l => length l
  end.

Fixpoint scalar_cardinality_product (m : dict) : nat :=
  match m with
  | [] => 1
  | (_, v) :: m' => scalar_cardinality v * scalar_cardinality_product m'
  end.

Definition is_string (v : pyval) : bool :=
  match v with
  | VStr _ => true
  | _ => false
  end.

Definition example_outDir : dict := [("outDir", VStr "results")].

(** An instance of [repr_list]: Python's text for lists of integers, of
    lists, and of strings that need no escaping. *)
Fixpoint simple_repr (v : pyval) : string :=
  match v with
  | VInt z => str_of_Z z
  | VStr s => "'" +:+ s +:+ "'"
  | VList l => "[" +:+ String.concat ", " (map simple_repr l) +:+ "]"
  end.
Definition simple_repr_list (l : list pyval) : string := simple_repr (VList l).

(** The expansion with the loops nested the other way round: the outer
    loop over the pairs of the keys expanded before, the inner loop over
    the current key's values.  The keys are taken in the order of the
    source, whose recursion is a left fold over the items in insertion
    order ([get_settings_fold_left]). *)
Definition newret_outer_ret (repr_list : list pyval -> string) (key : string)
    (value : pyval) (ret : list (string * string)) : list (string * string) :=
  flat_map (fun pre => map (fun v => new_pair repr_list key v pre)
                           (value_list value)) ret.

Definition get_settings_outer_ret (repr_list : list pyval -> string)
    (setting_map : dict) : list (string * string) * string :=
  fold_left (fun r kv => (newret_outer_ret repr_list (fst kv) (snd kv) (fst r),
                          strip "_" (snd r +:+ "_" +:+ fst kv)))
            setting_map ([("", "")], "").

Definition example_a12_b3 : dict :=
  [("a", VList [VInt 1; VInt 2]); ("b", VInt 3)].

Definition example_2_by_3 : dict :=
  [("a", VList [VInt 1; VInt 2]); ("b", VList [VInt 3; VInt 4; VInt 5])].

Definition example_x1_y2 : dict := [("x", VInt 1); ("y", VInt 2)].

(** Ascending order of utilisation. *)
Definition by_util (x y : nat * Q) : Prop := (snd x <= snd y)%Q.

Definition build_events (path : string) : list event :=
  [Print "=== NS3AI: BUILDING NS3 ===";
   Popen {| popen_cmd := "./ns3 build"; popen_cwd := path;
            popen_env := None; popen_piped := true |}].

Definition build_failed : exn :=
  RuntimeError "run_single_ns3(): requested to build ns3, but build failed!".

(** A system on which the build of every directory fails with code 1. *)
Definition failing_build_os : os :=
  {| environ := {["PATH" := "/usr/bin"]};
     abspath := fun p => "/home/user/" +:+ p;
     build_returncode := fun _ => 1%Z;
     listdir := fun _ => Ok ["ns3.36-sim-default"];
     which := fun _ => None;
     perf_data_path := fun d => "/home/user/" +:+ d +:+ "/perf.data" |}.

(** The same system with a build that succeeds. *)
Definition working_os : os :=
  {| environ := {["PATH" := "/usr/bin"]};
     abspath := fun p => "/home/user/" +:+ p;
     build_returncode := fun _ => 0%Z;
     listdir := fun _ => Ok ["ns3.36-sim-default"];
     which := fun _ => None;
     perf_data_path := fun d => "/home/user/" +:+ d +:+ "/perf.data" |}.

(** The processes whose name the reaper asked for, in order: the
    processes its loop reached. *)
Fixpoint visited (t : list event) : list Z :=
  match t with
  | [] => []
  | Name pid :: t' => pid :: visited t'
  | _ :: t' => visited t'
  end.

(** On the processes of [ch] nothing goes wrong but a process that no
    longer exists, or a wait that times out. *)
Definition only_vanishing (ps : psutil) (ch : list Z) : Prop :=
  forall c e, In c ch ->
    (name ps c = Raise e -> e = NoSuchProcess)
    /\ (send_signal ps c = Raise e -> e = NoSuchProcess)
    /\ (wait ps c = Raise e -> e = NoSuchProcess \/ e = TimeoutExpired)
    /\ (kill ps c = Raise e -> e = NoSuchProcess).

(** No process exists: the root asked for has already exited. *)
Definition no_process : psutil :=
  {| Process := fun _ => Raise NoSuchProcess;
     children := fun _ => Raise NoSuchProcess;
     name := fun _ => Raise NoSuchProcess;
     send_signal := fun _ => Raise NoSuchProcess;
     wait := fun _ => Ok tt;
     kill := fun _ => Raise NoSuchProcess;
     wait_procs := fun pids => (pids, []) |}.

(** A root 1 with the children 2, a [perf] that ignores SIGTERM for ten
    seconds and is gone when the SIGKILL is sent, 3, gone before it is
    looked at, and 4, an ordinary process. *)
Definition vanishing_tree : psutil :=
  {| Process := fun _ => Ok tt;
     children := fun _ => Ok [2; 3; 4]%Z;
     name := fun pid => if (pid =? 2)%Z then Ok "perf"
                        else if (pid =? 3)%Z then Raise NoSuchProcess
                        else Ok "ns3-sim";
     send_signal := fun _ => Ok tt;
     wait := fun _ => Raise TimeoutExpired;
     kill := fun pid => if (pid =? 2)%Z then Raise NoSuchProcess else Ok tt;
     wait_procs := fun pids => (pids, []) |}.

(** Eight cores.  The first sample finds three of them idle, every later
    sample all eight. *)
Definition busy_then_idle (k : nat) : list Q :=
  match k with
  | O => [0 # 1; 0 # 1; 0 # 1; 100 # 1; 100 # 1; 100 # 1; 100 # 1; 100 # 1]
  | S _ => [0 # 1; 0 # 1; 0 # 1; 0 # 1; 0 # 1; 0 # 1; 0 # 1; 0 # 1]
  end%Q.

(** ** The caller's view of [get_settings] *)

Section SettingsStore.

Variable repr_list : list pyval -> string.

(** Lines 95-108 with the dictionary object made explicit.  [popitem]
    removes the item from the object the caller passed, and the recursive
    call works on that same object; besides the value returned, the result
    holds what is left in the object when the call returns. *)
Equations get_settings_in_place (setting_map : dict)
  : (list (string * string) * string) * dict
  by wf (length setting_map) lt :=
  get_settings_in_place setting_map with inspect (popitem setting_map) := {
    | exist _ None _ => (([("", "")], ""), setting_map)
    | exist _ (Some (rest, (key, value))) E =>
        (extend_settings repr_list key value (fst (get_settings_in_place rest)),
         snd (get_settings_in_place rest)) }.
Next Obligation.
  intros setting_map rest key value E _. revert rest E.
  induction setting_map as [|x m IH]; intros rest; simpl; [discriminate|].
  destruct (popitem m) as [[r l]|] eqn:Em.
  - intros [= <- ->]. simpl. specialize (IH _ eq_refl). lia.
  - intros [= <- _]. simpl. lia.
Defined.
Next Obligation.
  intros setting_map rest key value E _. revert rest E.
  induction setting_map as [|x m IH]; intros rest; simpl; [discriminate|].
  destruct (popitem m) as [[r l]|] eqn:Em.
  - intros [= <- ->]. simpl. specialize (IH _ eq_refl). lia.
  - intros [= <- _]. simpl. lia.
Defined.

(** [m'] gives every key of [m], in order, one of the items its value
    stands for. *)
Definition picks (m m' : dict) : Prop :=
  Forall2 (fun kv kv' => fst kv' = fst kv /\ In (snd kv') (value_list (snd kv)))
          m m'.

End SettingsStore.

(** A text that is not empty and neither starts nor ends with an
    underscore: [strip('_')] leaves it alone. *)
Definition clean (s : string) : Prop :=
  s <> "" /\ startswith "_" s = false /\ endswith_char "_" s = false.

(** What lines 100, 107 and 108 do to a name, one text after the other. *)
Definition joined (l : list string) : string :=
  fold_left (fun acc x => strip "_" (acc +:+ "_" +:+ x)) l "".

(** Ascending order of core index, the order of [zip(range(cpu_num), ...)]. *)
Definition by_core (x y : nat * Q) : Prop := fst x < fst y.

(** Ascending utilisation, and ascending core index among cores of equal
    utilisation. *)
Definition by_util_then_core (x y : nat * Q) : Prop :=
  (snd x < snd y)%Q \/ ((snd x == snd y)%Q /\ fst x < fst y).

(** The processes sent SIGKILL, and those sent SIGTERM, in order. *)
Definition kills (t : list event) : list Z :=
  omap (fun ev => match ev with Kill pid => Some pid | _ => None end) t.
Definition sigterms (t : list event) : list Z :=
  omap (fun ev => match ev with SendSigterm pid => Some pid | _ => None end) t.

(** A process with a name that does not hold [perf]. *)
Definition ordinary (ps : psutil) (c : Z) : Prop :=
  exists nm, name ps c = Ok nm /\ contains "perf" nm = false.

(** A process named after [perf]. *)
Definition profiler (ps : psutil) (c : Z) : Prop :=
  exists nm, name ps c = Ok nm /\ contains "perf" nm = true.

(** A tree of three ordinary live processes. *)
Definition plain_tree : psutil :=
  {| Process := fun _ => Ok tt;
     children := fun _ => Ok [11; 12]%Z;
     name := fun _ => Ok "ns3-sim";
     send_signal := fun _ => Ok tt;
     wait := fun _ => Ok tt;
     kill := fun _ => Ok tt;
     wait_procs := fun pids => (pids, []) |}.

(** The same tree when the first child may not be killed. *)
Definition denied_tree : psutil :=
  {| Process := fun _ => Ok tt;
     children := fun _ => Ok [11; 12]%Z;
     name := fun _ => Ok "ns3-sim";
     send_signal := fun _ => Ok tt;
     wait := fun _ => Ok tt;
     kill := fun pid => if (pid =? 11)%Z then Raise AccessDenied else Ok tt;
     wait_procs := fun pids => (pids, []) |}.

(** An ordinary process that is alive, or gone by the time it is killed. *)
Definition killable (ps : psutil) (c : Z) : Prop :=
  ordinary ps c /\ (kill ps c = Ok tt \/ kill ps c = Raise NoSuchProcess).


(** The directory [run_single_ns3] starts the simulator in, and the one it
    lists to find the executable. *)
Definition scratch_dir (path : string) : string :=
  path_join (path_join path "build") "scratch".
Definition program_dir (path pname : string) : string :=
  path_join (scratch_dir path) pname.

(** A system with [perf] installed and a directory that lists another
    file before the two simulator binaries. *)
Definition perf_os : os :=
  {| environ := {["PATH" := "/usr/bin"]};
     abspath := fun p => "/home/user/" +:+ p;
     build_returncode := fun _ => 0%Z;
     listdir := fun _ => Ok ["CMakeFiles"; "ns3.36-sim-default"; "ns3.36-sim-debug"];
     which := fun _ => Some "/usr/bin/perf";
     perf_data_path := fun d => "/home/user/" +:+ d +:+ "/perf.data" |}.

(** A system whose program directory holds no simulator binary. *)
Definition empty_dir_os : os :=
  {| environ := {["PATH" := "/usr/bin"]};
     abspath := fun p => "/home/user/" +:+ p;
     build_returncode := fun _ => 0%Z;
     listdir := fun _ => Ok ["CMakeFiles"];
     which := fun _ => None;
     perf_data_path := fun d => "/home/user/" +:+ d +:+ "/perf.data" |}.

(** The shell commands a trace handed to [os.system], and the sleeps it
    made, in order. *)
Definition launched (t : list event) : list string :=
  omap (fun ev => match ev with System cmd => Some cmd | _ => None end) t.
Definition sleeps (t : list event) : list nat :=
  omap (fun ev => match ev with Sleep n => Some n | _ => None end) t.

(** The [k]-th run of the probe finds enough idle cores. *)
Definition ready (cpu_num : nat) (cpu_percent : nat -> list Q) (k : nat) : Prop :=
  RESERVE_CPU <= length (get_free_cpu cpu_num (cpu_percent k) 20).

(** Every sample finds the eight cores idle. *)
Definition always_idle (k : nat) : list Q := busy_then_idle 1.

(** * Theorems *)

Section SettingsFacts.

Variable repr_list : list pyval -> string.

Lemma popitem_snoc (m : dict) kv : popitem (m ++ [kv]) = Some (m, kv).
Proof.
  induction m as [|x m IH]; simpl; [reflexivity|]. now rewrite IH.
Qed.

Lemma popitem_Some (m rest : dict) kv :
  popitem m = Some (rest, kv) -> m = rest ++ [kv].
Proof.
  revert rest kv. induction m as [|x m IH]; intros rest kv; simpl; [discriminate|].
  destruct (popitem m) as [[r l]|] eqn:E.
  - intros [= <- <-]. simpl. f_equal. now apply IH.
  - intros [= <- <-]. destruct m as [|y m]; [reflexivity|].
    simpl in E. destruct (popitem m) as [[? ?]|]; discriminate.
Qed.

Lemma get_settings_nil : get_settings repr_list [] = ([("", "")], "").
Proof. reflexivity. Qed.

Lemma get_settings_snoc (m : dict) key value :
  get_settings repr_list (m ++ [(key, value)]) =
  extend_settings repr_list key value (get_settings repr_list m).
Proof.
  funelim (get_settings repr_list (m ++ [(key, value)])).
  - pose proof E as E'. rewrite popitem_snoc in E'.
    injection E' as <- <- <-. reflexivity.
  - match goal with E : popitem _ = None |- _ =>
      pose proof E as E'; rewrite popitem_snoc in E'; discriminate end.
Qed.

End SettingsFacts.

(** ** The settings expander *)

Section SettingsTheorems.

Variable repr_list : list pyval -> string.

Lemma get_settings_fold_left (m : dict) :
  get_settings repr_list m =
  fold_left (fun r kv => extend_settings repr_list (fst kv) (snd kv) r)
            m ([("", "")], "").
Proof.
  induction m as [|[k v] m IH] using rev_ind; [reflexivity|].
  rewrite get_settings_snoc, fold_left_app, IH. reflexivity.
Qed.

Lemma length_chars s : length (chars s) = String.length s.
Proof. induction s as [|c s IH]; simpl; [reflexivity|]. now rewrite IH. Qed.

Lemma length_value_list v : length (value_list v) = cardinality v.
Proof. destruct v; [reflexivity| apply length_chars | reflexivity]. Qed.

Lemma length_newret key value ret :
  length (newret repr_list key value ret) = cardinality value * length ret.
Proof.
  unfold newret. rewrite <- length_value_list.
  apply flat_map_constant_length. intros v _. apply length_map.
Qed.

Lemma cardinality_product_snoc m key value :
  cardinality_product (m ++ [(key, value)]) =
  cardinality value * cardinality_product m.
Proof.
  induction m as [|[k v] m IH]; simpl; [lia|]. rewrite IH. lia.
Qed.

End SettingsTheorems.

Lemma cardinality_product_no_string (m : dict) :
  Forall (fun kv => is_string (snd kv) = false) m ->
  cardinality_product m = scalar_cardinality_product m.
Proof.
  induction 1 as [|[k v] m Hv _ IH]; [reflexivity|].
  simpl in *. rewrite IH. destruct v; [reflexivity|discriminate|reflexivity].
Qed.

(** C1, as the code has it.  For every setting map the number of pairs
    [get_settings] returns is the product of the cardinalities of the map's
    values, where a value that is not iterable counts 1, a list counts its
    elements and a string counts its characters; so for a map without
    string values it is the product in which every scalar counts 1.  For
    the empty map the result is the single pair of two empty strings (with
    the empty format string). *)
Theorem get_settings_count (repr_list : list pyval -> string) (setting_map : dict) :
  length (fst (get_settings repr_list setting_map)) = cardinality_product setting_map
  /\ (Forall (fun kv => is_string (snd kv) = false) setting_map ->
      length (fst (get_settings repr_list setting_map))
      = scalar_cardinality_product setting_map)
  /\ get_settings repr_list [] = ([("", "")], "").
Proof.
  assert (H : length (fst (get_settings repr_list setting_map))
              = cardinality_product setting_map).
  { induction setting_map as [|[k v] m IH] using rev_ind; [reflexivity|].
    rewrite get_settings_snoc, cardinality_product_snoc. simpl.
    rewrite length_newret, IH. reflexivity. }
  split; [exact H|]. split; [|reflexivity].
  intros Hs. rewrite H. now apply cardinality_product_no_string.
Qed.

(** C1, as stated, fails: with a string value counted as a scalar, the map
    [{outDir: 'results'}] would expand to one pair; the source expands it
    to seven, one per character. *)
Lemma get_settings_count_not_scalar :
  length (fst (get_settings simple_repr_list example_outDir)) = 7
  /\ scalar_cardinality_product example_outDir = 1
  /\ length (fst (get_settings simple_repr_list example_outDir))
     <> scalar_cardinality_product example_outDir.
Proof. vm_compute. repeat split. discriminate. Qed.

Lemma lookup_flat_map_blocks {A B : Type} (f : A -> list B) (n : nat)
    (l : list A) (j : nat) (x : A) (i : nat) (y : B) :
  (forall a, length (f a) = n) ->
  l !! j = Some x -> f x !! i = Some y ->
  flat_map f l !! (j * n + i) = Some y.
Proof.
  intros Hn. revert j. induction l as [|a l IH]; intros j Hj Hi; [discriminate|].
  simpl. destruct j as [|j].
  - injection Hj as ->. simpl. now apply lookup_app_l_Some.
  - simpl in Hj. rewrite lookup_app_r by (rewrite Hn; lia).
    rewrite Hn. replace (S j * n + i - n) with (j * n + i) by lia.
    now apply IH.
Qed.

(** C2, as the code has it.  In the result for a map whose last item is
    [(key, value)], the outer loop ranges over the values of [key], the key
    this call removed, and the inner loop over the pairs [ret] that the
    recursive call returned for the other keys: the pair made from the
    [j]-th value and the [i]-th pair of [ret] stands at position
    [j * length ret + i], and there are [length values * length ret] pairs. *)
Theorem get_settings_order (repr_list : list pyval -> string) (m : dict)
    (key : string) (value : pyval) (j i : nat) (v : pyval) (pre : string * string) :
  value_list value !! j = Some v ->
  fst (get_settings repr_list m) !! i = Some pre ->
  fst (get_settings repr_list (m ++ [(key, value)]))
    !! (j * length (fst (get_settings repr_list m)) + i)
  = Some (new_pair repr_list key v pre)
  /\ length (fst (get_settings repr_list (m ++ [(key, value)])))
     = length (value_list value) * length (fst (get_settings repr_list m)).
Proof.
  intros Hj Hi. rewrite get_settings_snoc. simpl. split.
  - unfold newret.
    apply lookup_flat_map_blocks with (x := v); [intros a; apply length_map|exact Hj|].
    rewrite list_lookup_fmap, Hi. reflexivity.
  - rewrite length_newret, length_value_list. reflexivity.
Qed.

Lemma get_settings_order_witness :
  fst (get_settings simple_repr_list example_2_by_3) !! 2%nat
  = Some (" --a=1 --b=4", "1_4")
  /\ length (fst (get_settings simple_repr_list example_2_by_3)) = 6.
Proof.
  exact (get_settings_order simple_repr_list
           [("a", VList [VInt 1; VInt 2])] "b" (VList [VInt 3; VInt 4; VInt 5])
           1 0 (VInt 4) (" --a=1", "1") eq_refl eq_refl).
Defined.

(** The order the source produces for keys of 2 and 3 values. *)
Example get_settings_2_by_3 (repr_list : list pyval -> string) :
  fst (get_settings repr_list example_2_by_3) =
  [(" --a=1 --b=3", "1_3"); (" --a=2 --b=3", "2_3");
   (" --a=1 --b=4", "1_4"); (" --a=2 --b=4", "2_4");
   (" --a=1 --b=5", "1_5"); (" --a=2 --b=5", "2_5")].
Proof. reflexivity. Qed.

(** C2, as the claim words it, fails: with the outer loop over the pairs of
    the keys expanded before and the inner loop over the current key's
    values, keys of 2 and 3 values would come out in another order than the
    source's. *)
Lemma get_settings_not_outer_ret :
  fst (get_settings simple_repr_list example_2_by_3)
  <> fst (get_settings_outer_ret simple_repr_list example_2_by_3).
Proof. vm_compute. discriminate. Qed.

(** C3, as the code has it.  For [{a: [1, 2], b: 3}] the expansion is
    exactly two pairs, both holding [--b=3], the first [--a=1] and the
    second [--a=2], and the file-name format is ["a_b"]: each key is
    appended after the keys of the recursive call. *)
Theorem get_settings_a12_b3 (repr_list : list pyval -> string) :
  get_settings repr_list example_a12_b3
  = ([(" --a=1 --b=3", "1_3"); (" --a=2 --b=3", "2_3")], "a_b")
  /\ length (fst (get_settings repr_list example_a12_b3)) = 2
  /\ Forall (fun p => contains "--b=3" (fst p) = true)
            (fst (get_settings repr_list example_a12_b3))
  /\ map (fun p => (contains "--a=1" (fst p), contains "--a=2" (fst p)))
         (fst (get_settings repr_list example_a12_b3))
     = [(true, false); (false, true)].
Proof.
  assert (E : get_settings repr_list example_a12_b3
              = ([(" --a=1 --b=3", "1_3"); (" --a=2 --b=3", "2_3")], "a_b"))
    by reflexivity.
  rewrite E. repeat split. repeat constructor.
Qed.

(** C3, as stated, fails: the format string for [{a: [1, 2], b: 3}] is not
    ["b_a"]. *)
Lemma get_settings_a12_b3_not_b_a :
  snd (get_settings simple_repr_list example_a12_b3) <> "b_a".
Proof. vm_compute. discriminate. Qed.

Lemma append_cons (x : ascii) (a b : string) :
  String x a +:+ b = String x (a +:+ b).
Proof. reflexivity. Qed.

Lemma append_nil_r (a : string) : a +:+ "" = a.
Proof. induction a as [|x a IH]; [reflexivity|]. now rewrite append_cons, IH. Qed.

Lemma append_assoc (a b c : string) : (a +:+ b) +:+ c = a +:+ (b +:+ c).
Proof. induction a as [|x a IH]; [reflexivity|]. now rewrite !append_cons, IH. Qed.

Lemma get_setting_from (repr_list : list pyval -> string) (m : dict) (acc : string) :
  fold_left (fun ret kv => ret +:+ " --" +:+ fst kv +:+ "=" +:+ format repr_list (snd kv))
            m acc
  = acc +:+ String.concat ""
              (map (fun kv => " --" +:+ fst kv +:+ "=" +:+ format repr_list (snd kv)) m).
Proof.
  revert acc. induction m as [|kv m IH]; intros acc.
  - simpl. now rewrite append_nil_r.
  - cbn [fold_left map]. rewrite IH.
    destruct m as [|kv' m].
    + simpl. now rewrite append_nil_r.
    + cbn [map String.concat]. rewrite !append_assoc. reflexivity.
Qed.

(** C9.  [get_setting] is the concatenation, in the order of the map, of
    one fragment [" --key=value"] per entry; a list value gives one
    fragment holding the text of the list, not one fragment per element;
    and [{x: 1, y: 2}] gives exactly [" --x=1 --y=2"]. *)
Theorem get_setting_concat (repr_list : list pyval -> string) (setting_map : dict) :
  get_setting repr_list setting_map
  = String.concat ""
      (map (fun kv => " --" +:+ fst kv +:+ "=" +:+ format repr_list (snd kv))
           setting_map)
  /\ (forall key l, get_setting repr_list [(key, VList l)]
                    = " --" +:+ key +:+ "=" +:+ repr_list l)
  /\ get_setting repr_list example_x1_y2 = " --x=1 --y=2".
Proof.
  split; [|split].
  - unfold get_setting. rewrite get_setting_from. reflexivity.
  - intros key l. unfold get_setting. simpl. reflexivity.
  - reflexivity.
Qed.

(** C10.  A string is iterable, so a setting whose value is a string [s]
    is expanded over the characters of [s]: the pairs are those of the
    other keys once per character, [String.length s] times as many, and
    [{k: "ab"}] gives the two pairs for ["a"] and ["b"], not one for
    ["ab"]. *)
Theorem get_settings_string_value (repr_list : list pyval -> string) (m : dict)
    (key s : string) :
  is_Iterable (VStr s) = true
  /\ fst (get_settings repr_list (m ++ [(key, VStr s)]))
     = flat_map (fun v => map (new_pair repr_list key v)
                              (fst (get_settings repr_list m))) (chars s)
  /\ length (fst (get_settings repr_list (m ++ [(key, VStr s)])))
     = String.length s * length (fst (get_settings repr_list m))
  /\ fst (get_settings repr_list [("k", VStr "ab")]) = [(" --k=a", "a"); (" --k=b", "b")].
Proof.
  split; [reflexivity|]. rewrite get_settings_snoc. simpl. split; [reflexivity|].
  split; [|reflexivity].
  rewrite length_newret. reflexivity.
Qed.

(** ** The CPU probe *)

Lemma Qltb_lt (x y : Q) : Qltb x y = true <-> (x < y)%Q.
Proof.
  unfold Qltb. rewrite negb_true_iff. split.
  - intros H. apply Qnot_le_lt. intros Hle.
    apply Qle_bool_iff in Hle. congruence.
  - intros H. destruct (Qle_bool y x) eqn:E; [|reflexivity].
    apply Qle_bool_iff in E. exfalso. exact (Qlt_not_le _ _ H E).
Qed.

Lemma insert_by_util_perm (x : nat * Q) (l : list (nat * Q)) :
  Permutation (insert_by_util x l) (x :: l).
Proof.
  induction l as [|y l IH]; simpl; [reflexivity|].
  destruct (Qle_bool (snd x) (snd y)); [reflexivity|].
  rewrite IH. apply perm_swap.
Qed.

Lemma sorted_by_util_perm (l : list (nat * Q)) : Permutation (sorted_by_util l) l.
Proof.
  induction l as [|x l IH]; simpl; [reflexivity|].
  rewrite insert_by_util_perm. now constructor.
Qed.

Lemma insert_by_util_sorted (x : nat * Q) (l : list (nat * Q)) :
  StronglySorted by_util l -> StronglySorted by_util (insert_by_util x l).
Proof.
  induction 1 as [|y l Hs IH Hy]; simpl.
  - repeat constructor.
  - destruct (Qle_bool (snd x) (snd y)) eqn:E.
    + apply Qle_bool_iff in E. constructor; [now constructor|].
      constructor; [exact E|].
      eapply List.Forall_impl; [|exact Hy]. intros z Hz. unfold by_util in *.
      now apply Qle_trans with (snd y).
    + assert (Hyx : (snd y <= snd x)%Q).
      { apply Qlt_le_weak, Qnot_le_lt. intros Hle.
        apply Qle_bool_iff in Hle. congruence. }
      constructor; [exact IH|].
      rewrite (List.Forall_forall (by_util y)). intros z Hz.
      apply (Permutation_in _ (insert_by_util_perm x l)) in Hz.
      destruct Hz as [<-|Hz]; [exact Hyx|].
      rewrite (List.Forall_forall (by_util y)) in Hy. now apply Hy.
Qed.

Lemma sorted_by_util_sorted (l : list (nat * Q)) :
  StronglySorted by_util (sorted_by_util l).
Proof.
  induction l as [|x l IH]; simpl; [constructor|].
  now apply insert_by_util_sorted.
Qed.

Lemma In_combine_seq (sample : list Q) (a n i : nat) (u : Q) :
  In (i, u) (combine (seq a n) sample) ->
  a <= i < a + n /\ sample !! (i - a) = Some u.
Proof.
  revert a sample. induction n as [|n IH]; intros a sample; simpl; [tauto|].
  destruct sample as [|q sample]; simpl; [tauto|].
  intros [[= <- <-]|H].
  - rewrite Nat.sub_diag. split; [lia|reflexivity].
  - apply IH in H as [Hi Hu]. split; [lia|].
    replace (i - a) with (S (i - S a)) by lia. exact Hu.
Qed.

(** C8.  Whatever the threshold and the sample, every core
    [get_free_cpu] returns is a core of the machine, paired with its own
    sampled utilisation, which is strictly below the threshold; and the
    result is in ascending order of utilisation. *)
Theorem get_free_cpu_below_sorted (cpu_num : nat) (sample : list Q) (perc : Q) :
  Forall (fun x => (snd x < perc)%Q
                   /\ sample !! fst x = Some (snd x)
                   /\ fst x < cpu_num)
         (get_free_cpu cpu_num sample perc)
  /\ Forall (fun x => ~ (perc <= snd x)%Q) (get_free_cpu cpu_num sample perc)
  /\ StronglySorted by_util (get_free_cpu cpu_num sample perc).
Proof.
  assert (H : Forall (fun x => (snd x < perc)%Q
                   /\ sample !! fst x = Some (snd x)
                   /\ fst x < cpu_num)
         (get_free_cpu cpu_num sample perc)).
  { rewrite (List.Forall_forall _). intros [i u] Hin. unfold get_free_cpu in Hin.
    apply (Permutation_in _ (sorted_by_util_perm _)) in Hin.
    apply filter_In in Hin as [Hin Hlt]. simpl in *.
    apply Qltb_lt in Hlt. apply In_combine_seq in Hin as [Hi Hu].
    rewrite Nat.sub_0_r in Hu. repeat split; [exact Hlt|exact Hu|lia]. }
  split; [exact H|]. split; [|apply sorted_by_util_sorted].
  eapply List.Forall_impl; [|exact H]. intros x [Hlt _]. now apply Qlt_not_le.
Qed.

(** ** Reasoning about [io] computations *)

Lemma io_bind_Ok {A B : Type} (m : io A) (f : A -> io B) (t : list event) (b : B) :
  m ≫= f = (t, Ok b) ->
  exists t1 a t2, m = (t1, Ok a) /\ f a = (t2, Ok b) /\ t = t1 ++ t2.
Proof.
  destruct m as [t1 [a|e]]; unfold mbind, io_bind; [|discriminate].
  destruct (f a) as [t2 r] eqn:E. intros [= <- ->].
  exists t1, a, t2. auto.
Qed.

Lemma io_bind_ret {A B : Type} (t : list event) (a : A) (f : A -> io B) :
  mbind (M := io) f (t, Ok a) = (t ++ fst (f a), snd (f a)).
Proof. unfold mbind, io_bind. now destruct (f a). Qed.

Lemma io_mret_bind {A B : Type} (a : A) (f : A -> io B) :
  mbind (M := io) f (mret a) = f a.
Proof. unfold mbind, io_bind, mret, io_ret. now destruct (f a). Qed.

Lemma io_bind_raise {A B : Type} (t : list event) (e : exn) (f : A -> io B) :
  mbind (M := io) f (t, Raise e) = (t, Raise e).
Proof. reflexivity. Qed.

(** ** The launch driver *)

(** C6.  With [build=True] and a build that exits with a code other than
    zero, [run_single_ns3] raises the build-failure error; all it did
    before is print the banner and run the build command, so no simulator
    process was spawned and the executable directory was not even listed. *)
Theorem run_single_ns3_build_failure (repr_list : list pyval -> string) (sys : os)
    (path pname : string) (setting : option dict)
    (env : option (gmap string string)) (show_output profile_ns3 : bool) :
  build_returncode sys path <> 0%Z ->
  run_single_ns3 repr_list sys path pname setting env show_output profile_ns3 true
  = (build_events path, Raise build_failed).
Proof.
  intros Hrc. unfold run_single_ns3, build_ns3.
  apply Z.eqb_neq in Hrc. cbn. rewrite Hrc. reflexivity.
Qed.

Lemma run_single_ns3_build_failure_witness :
  run_single_ns3 simple_repr_list failing_build_os "ns3" "sim" None
                 (Some {["A" := "1"]}) false false true
  = (build_events "ns3", Raise build_failed).
Proof.
  apply (run_single_ns3_build_failure simple_repr_list failing_build_os
           "ns3" "sim" None (Some {["A" := "1"]}) false false).
  simpl. lia.
Defined.

(** C5, on the code.  Called with [env=None], the default,
    [run_single_ns3] never reaches the spawn: when no build is asked for, or
    the build succeeds, the assignment [env['LD_LIBRARY_PATH'] = ...] raises
    [TypeError]; nothing was listed or spawned before. *)
Theorem run_single_ns3_env_None (repr_list : list pyval -> string) (sys : os)
    (path pname : string) (setting : option dict)
    (show_output profile_ns3 build : bool) :
  run_single_ns3 repr_list sys path pname setting None show_output profile_ns3 build
  = if build
    then (build_events path,
          Raise (if (build_returncode sys path =? 0)%Z then TypeError else build_failed))
    else ([], Raise TypeError).
Proof.
  unfold run_single_ns3, build_ns3. destruct build; cbn; [|reflexivity].
  destruct (build_returncode sys path =? 0)%Z; reflexivity.
Qed.

(** What the driver does for a caller that passes a dictionary: a call
    that returns has spawned one process whose environment holds
    [LD_LIBRARY_PATH], the absolute path of [<path>/build/lib]. *)
Lemma run_single_ns3_env_injected (repr_list : list pyval -> string) (sys : os)
    (path pname : string) (setting : option dict)
    (env : option (gmap string string)) (show_output profile_ns3 build : bool)
    (t : list event) (proc : popen_args) :
  run_single_ns3 repr_list sys path pname setting env show_output profile_ns3 build
  = (t, Ok proc) ->
  exists e e', env = Some e /\ popen_env proc = Some e'
    /\ e' !! "LD_LIBRARY_PATH"
       = Some (abspath sys (path_join (path_join path "build") "lib"))
    /\ (forall k, k <> "LD_LIBRARY_PATH" ->
          e' !! k = if bool_decide (e = ∅) then e !! k
                    else (environ sys ∪ e) !! k)
    /\ last t = Some (Popen proc).
Proof.
  unfold run_single_ns3. intros H.
  apply io_bind_Ok in H as (t1 & failed & t2 & _ & H & ->).
  destruct failed; [discriminate|].
  apply io_bind_Ok in H as (t3 & e' & t4 & Henv & H & ->).
  apply io_bind_Ok in H as (t5 & files & t6 & _ & H & ->).
  apply io_bind_Ok in H as (t7 & exec_name & t8 & _ & H & ->).
  apply io_bind_Ok in H as (t9 & cmd & t10 & _ & H & ->).
  apply io_bind_Ok in H as (t11 & u & t12 & Hemit & H & ->).
  injection Hemit as <-. injection H as <- <-.
  destruct env as [e|]; [|discriminate]. injection Henv as <- <-.
  exists e. eexists. split; [reflexivity|]. split; [reflexivity|].
  split; [apply lookup_insert_eq|].
  split.
  { intros k Hk. rewrite lookup_insert_ne by congruence.
    now destruct (bool_decide (e = ∅)). }
  rewrite app_nil_r, !app_assoc. apply last_snoc.
Qed.

(** A launch that goes through: the command line, the working directory
    and the injected variable. *)
Example run_single_ns3_spawns :
  exists t proc,
    run_single_ns3 simple_repr_list working_os "ns3" "sim"
      (Some [("x", VInt 1); ("y", VInt 2)]) (Some {["A" := "1"]}) false false true
    = (t, Ok proc)
    /\ popen_cmd proc = "./sim/ns3.36-sim-default --x=1 --y=2"
    /\ popen_cwd proc = "ns3/build/scratch"
    /\ popen_env proc
       = Some (<["LD_LIBRARY_PATH" := "/home/user/ns3/build/lib"]>
                 ({["PATH" := "/usr/bin"]} ∪ {["A" := "1"]})).
Proof. do 2 eexists. split; [reflexivity|]. repeat split. Qed.

(** ** The process tree reaper *)

(** Case analysis on the next answer of the system the goal depends on. *)
Ltac case_answer :=
  match goal with
  | |- context [match ?x with Ok _ => _ | Raise _ => _ end] =>
      destruct x as [[]|[]]; simpl
  end.

Section ReaperFacts.

Variable ps : psutil.

Lemma visited_app (t1 t2 : list event) :
  visited (t1 ++ t2) = visited t1 ++ visited t2.
Proof.
  induction t1 as [|ev t1 IH]; [reflexivity|].
  destruct ev; simpl; rewrite IH; reflexivity.
Qed.

(** One iteration never lets [NoSuchProcess] out, whatever psutil
    answers, and always asks for the name of its process first. *)
Lemma reap_one_catches (c : Z) :
  snd (reap_one ps c) <> Raise NoSuchProcess
  /\ visited (fst (reap_one ps c)) = [c].
Proof.
  unfold reap_one, perf_graceful, perf_escalate, syscall, emit, try_except.
  unfold mbind, io_bind, mret, io_ret.
  destruct (name ps c) as [nm|[]]; simpl; try (split; [discriminate|reflexivity]).
  destruct (contains "perf" nm); simpl;
    repeat case_answer; split; (discriminate || reflexivity).
Qed.

(** With nothing but vanished processes and timeouts, it returns. *)
Lemma reap_one_returns (c : Z) (ch : list Z) :
  only_vanishing ps ch -> In c ch -> snd (reap_one ps c) = Ok tt.
Proof.
  intros Hv Hc.
  assert (Hn := fun e => proj1 (Hv c e Hc)).
  assert (Hs := fun e => proj1 (proj2 (Hv c e Hc))).
  assert (Hw := fun e => proj1 (proj2 (proj2 (Hv c e Hc)))).
  assert (Hk := fun e => proj2 (proj2 (proj2 (Hv c e Hc)))).
  unfold reap_one, perf_graceful, perf_escalate, syscall, emit, try_except.
  unfold mbind, io_bind, mret, io_ret.
  destruct (name ps c) as [nm|e]; simpl.
  2: { rewrite (Hn e eq_refl). reflexivity. }
  destruct (contains "perf" nm); simpl.
  - destruct (send_signal ps c) as [[]|e]; simpl.
    2: { rewrite (Hs e eq_refl). reflexivity. }
    destruct (wait ps c) as [[]|e]; simpl; [reflexivity|].
    destruct (Hw e eq_refl) as [-> | ->]; simpl; [reflexivity|].
    destruct (kill ps c) as [[]|e]; simpl; [reflexivity|].
    rewrite (Hk e eq_refl). reflexivity.
  - destruct (kill ps c) as [[]|e]; simpl; [reflexivity|].
    rewrite (Hk e eq_refl). reflexivity.
Qed.

Lemma reap_all_catches (ch : list Z) :
  snd (reap_all ps ch) <> Raise NoSuchProcess.
Proof.
  induction ch as [|c ch IH]; [discriminate|].
  cbn [reap_all]. destruct (reap_one_catches c) as [Hc _].
  destruct (reap_one ps c) as [t [[]|e]].
  - rewrite io_bind_ret. exact IH.
  - exact Hc.
Qed.

Lemma reap_all_returns (ch ch0 : list Z) :
  only_vanishing ps ch0 -> (forall c, In c ch -> In c ch0) ->
  snd (reap_all ps ch) = Ok tt /\ visited (fst (reap_all ps ch)) = ch.
Proof.
  intros Hv. induction ch as [|c ch IH]; intros Hin; [split; reflexivity|].
  cbn [reap_all].
  pose proof (reap_one_returns c ch0 Hv (Hin c (or_introl eq_refl))) as Hr.
  destruct (reap_one_catches c) as [_ Hvis].
  destruct (reap_one ps c) as [t r]. simpl in Hr, Hvis. subst r.
  rewrite io_bind_ret. simpl.
  destruct IH as [IH1 IH2]; [intros c' Hc'; apply Hin; now right|].
  split; [exact IH1|]. rewrite visited_app, Hvis, IH2. reflexivity.
Qed.

End ReaperFacts.

(** C7, as the code has it.  Once the root has been resolved to [pid] and
    its descendants [desc] enumerated, the call never raises
    [NoSuchProcess], whatever psutil answers afterwards; and when nothing
    goes wrong but processes that no longer exist at the moment they are
    acted on (at the name lookup, the SIGTERM, or the SIGKILL of the
    escalation or of the ordinary path) and graceful waits that time out,
    the loop reaches every process of the tree in order and the call
    returns what [wait_procs] answers. *)
Theorem kill_proc_tree_skips_vanished (ps : psutil) (p : proc_arg)
    (pid : Z) (desc : list Z) :
  resolve ps p = ([], Ok pid) ->
  children ps pid = Ok desc ->
  snd (kill_proc_tree ps p) <> Raise NoSuchProcess
  /\ (only_vanishing ps (pid :: desc) ->
      snd (kill_proc_tree ps p) = Ok (wait_procs ps (pid :: desc))
      /\ visited (fst (kill_proc_tree ps p)) = pid :: desc).
Proof.
  intros Hres Hch. unfold kill_proc_tree.
  rewrite Hres, io_bind_ret, Hch, io_mret_bind. cbn [fst snd app].
  split.
  - pose proof (reap_all_catches ps (pid :: desc)) as Hc.
    destruct (reap_all ps (pid :: desc)) as [t [[]|e]].
    + rewrite io_bind_ret. discriminate.
    + rewrite io_bind_raise. simpl in *. intros [= ->]. now apply Hc.
  - intros Hv.
    destruct (reap_all_returns ps (pid :: desc) (pid :: desc) Hv (fun c H => H))
      as [Hr Hvis].
    destruct (reap_all ps (pid :: desc)) as [t r]. simpl in Hr, Hvis. subst r.
    rewrite io_bind_ret. cbn [fst snd syscall].
    split; [reflexivity|]. rewrite visited_app, Hvis. simpl. now rewrite app_nil_r.
Qed.

Lemma vanishing_tree_only_vanishing : only_vanishing vanishing_tree [1; 2; 3; 4]%Z.
Proof.
  intros c e Hin. simpl in Hin.
  destruct Hin as [<-|[<-|[<-|[<-|[]]]]]; simpl;
    repeat split; intros [= <-]; auto.
Defined.

Lemma kill_proc_tree_skips_vanished_witness :
  snd (kill_proc_tree vanishing_tree (PidInt 1)) <> Raise NoSuchProcess
  /\ snd (kill_proc_tree vanishing_tree (PidInt 1))
     = Ok (wait_procs vanishing_tree [1; 2; 3; 4]%Z)
  /\ visited (fst (kill_proc_tree vanishing_tree (PidInt 1))) = [1; 2; 3; 4]%Z.
Proof.
  destruct (kill_proc_tree_skips_vanished vanishing_tree (PidInt 1) 1 [2; 3; 4]%Z
              eq_refl eq_refl) as [Hno Hret].
  split; [exact Hno|]. exact (Hret vanishing_tree_only_vanishing).
Defined.

(** C7, as stated, fails: asked to reap a process id whose process has
    already exited, the call raises [NoSuchProcess] from the lookup of line
    66, before its loop. *)
Lemma kill_proc_tree_vanished_root :
  kill_proc_tree no_process (PidInt 42) = ([], Raise NoSuchProcess).
Proof. reflexivity. Qed.

(** ** The bulk launch scheduler *)

Section BulkFacts.

Variable repr_list : list pyval -> string.
Variable cpu_num : nat.
Variable cpu_percent : nat -> list Q.

(** The wait loop does not probe again: entered with fewer than
    [RESERVE_CPU] idle cores it only sleeps, whatever the fuel. *)
Lemma wait_for_cpus_stuck (cpus : list (nat * Q)) :
  length cpus < RESERVE_CPU ->
  forall fuel st, wait_for_cpus fuel cpus st = Unfinished.
Proof.
  intros Hlt. induction fuel as [|fuel IH]; intros st; [reflexivity|].
  simpl. destruct (Nat.ltb_spec (length cpus) RESERVE_CPU) as [_|Hge].
  - apply IH.
  - unfold RESERVE_CPU in *. lia.
Qed.

(** Entered with at least [RESERVE_CPU] idle cores it ends at once. *)
Lemma wait_for_cpus_ready (cpus : list (nat * Q)) (fuel : nat) (st : sched) :
  RESERVE_CPU <= length cpus ->
  wait_for_cpus (S fuel) cpus st = Finished st.
Proof.
  intros Hge. simpl.
  destruct (Nat.ltb_spec (length cpus) RESERVE_CPU) as [Hlt|_]; [|reflexivity].
  unfold RESERVE_CPU in *. lia.
Qed.

Lemma launch_pair_stuck (pname common args fn : string) (st : sched) :
  length (get_free_cpu cpu_num (cpu_percent (probes st)) 20) < RESERVE_CPU ->
  forall fuel, launch_pair cpu_num cpu_percent fuel pname common args fn st
               = Unfinished.
Proof.
  intros Hlt fuel. unfold launch_pair.
  now rewrite (wait_for_cpus_stuck _ Hlt).
Qed.

(** X25.  When the one probe of a pair finds enough idle cores the launch
    is issued without sleeping, pinned to the first core of the probe's
    answer, the least utilised one. *)
Lemma launch_pair_ready (pname common args fn : string) (st : sched) (fuel : nat) :
  RESERVE_CPU <= length (get_free_cpu cpu_num (cpu_percent (probes st)) 20) ->
  exists core u rest,
    get_free_cpu cpu_num (cpu_percent (probes st)) 20 = (core, u) :: rest
    /\ Forall (by_util (core, u)) rest
    /\ launch_pair cpu_num cpu_percent (S fuel) pname common args fn st
       = Finished
           {| probes := S (probes st);
              trace := (trace st ++ [CpuPercent])
                       ++ [System ("taskset -c " +:+ str_of_nat core
                                   +:+ " nohup ./waf --run " +:+ pname +:+ common
                                   +:+ args +:+ " > " +:+ fn +:+ "&")] |}.
Proof.
  intros Hge. unfold launch_pair. rewrite wait_for_cpus_ready by exact Hge.
  pose proof (sorted_by_util_sorted
    (List.filter (fun x => Qltb (snd x) 20)
       (combine (seq 0 cpu_num) (cpu_percent (probes st))))) as Hs.
  fold (get_free_cpu cpu_num (cpu_percent (probes st)) 20) in Hs.
  destruct (get_free_cpu cpu_num (cpu_percent (probes st)) 20) as [|[core u] rest].
  - unfold RESERVE_CPU in Hge. simpl in Hge. lia.
  - apply StronglySorted_inv in Hs as [_ Hhd].
    exists core, u, rest. auto.
Qed.

End BulkFacts.

(** C4, on the code.  One pair to launch on eight cores; the probe finds
    three idle cores at first, and any later probe would find eight, which
    is at least [RESERVE_CPU].  Whatever the fuel, the run is still in the
    wait loop of that pair: the loop sleeps without probing again, and the
    launch is never issued. *)
Theorem run_bulk_ns3_never_launches :
  RESERVE_CPU = 4
  /\ length (get_free_cpu 8 (busy_then_idle 0) 20) = 3
  /\ (forall k, RESERVE_CPU <= length (get_free_cpu 8 (busy_then_idle (S k)) 20))
  /\ fst (get_settings simple_repr_list []) = [("", "")]
  /\ forall fuel,
       run_bulk_ns3 simple_repr_list 8 busy_then_idle fuel "ns3" "sim" [] [[]] false
       = Unfinished.
Proof.
  split; [reflexivity|]. split; [reflexivity|].
  split; [intros k; vm_compute; lia|]. split; [reflexivity|].
  intros fuel. unfold run_bulk_ns3.
  change (flat_map _ [[]]) with [("", "")].
  cbn [launch_all]. rewrite launch_pair_stuck; [reflexivity|].
  vm_compute. lia.
Qed.

(** * Further properties of the settings functions *)

Section SettingsMore.

Variable repr_list : list pyval -> string.

Lemma get_settings_in_place_snoc (m : dict) key value :
  get_settings_in_place repr_list (m ++ [(key, value)]) =
  (extend_settings repr_list key value (fst (get_settings_in_place repr_list m)),
   snd (get_settings_in_place repr_list m)).
Proof.
  funelim (get_settings_in_place repr_list (m ++ [(key, value)])).
  - pose proof E as E'. rewrite popitem_snoc in E'.
    injection E' as <- <- <-. reflexivity.
  - match goal with E : popitem _ = None |- _ =>
      pose proof E as E'; rewrite popitem_snoc in E'; discriminate end.
Qed.

Lemma get_setting_snoc (m : dict) key value :
  get_setting repr_list (m ++ [(key, value)])
  = get_setting repr_list m +:+ " --" +:+ key +:+ "=" +:+ format repr_list value.
Proof. unfold get_setting. rewrite fold_left_app. reflexivity. Qed.

Lemma picks_snoc_inv (m : dict) kv (m' : dict) :
  picks (m ++ [kv]) m' ->
  exists m0 v, m' = m0 ++ [(fst kv, v)] /\ picks m m0 /\ In v (value_list (snd kv)).
Proof.
  unfold picks. intros H. apply Forall2_app_inv_l in H as (m0 & l & H0 & Hl & ->).
  inversion Hl as [|? [k v] ? ? [Hk Hv] Hnil]; subst. inversion Hnil; subst.
  simpl in Hk. subst k. exists m0, v. auto.
Qed.

Lemma picks_snoc (m m0 : dict) key value v :
  picks m m0 -> In v (value_list value) ->
  picks (m ++ [(key, value)]) (m0 ++ [(key, v)]).
Proof.
  intros H Hv. apply Forall2_app; [exact H|]. repeat constructor. exact Hv.
Qed.

Lemma In_newret key value ret p :
  In p (newret repr_list key value ret) <->
  exists v pre, In v (value_list value) /\ In pre ret
                /\ p = new_pair repr_list key v pre.
Proof.
  unfold newret. rewrite in_flat_map. split.
  - intros (v & Hv & Hp). apply in_map_iff in Hp as (pre & <- & Hpre). eauto.
  - intros (v & pre & Hv & Hpre & ->). exists v. split; [exact Hv|].
    now apply in_map.
Qed.

End SettingsMore.

(** X1.  The command fragments [get_settings] returns are exactly the
    texts [get_setting] gives for the dictionaries that keep the keys of
    the map, in order, and give each one of the items of its value: every
    returned fragment is such a text, and every such text is returned. *)
Theorem get_settings_commands (repr_list : list pyval -> string) (m : dict) :
  (forall p, In p (fst (get_settings repr_list m)) ->
     exists m', picks m m' /\ fst p = get_setting repr_list m')
  /\ (forall m', picks m m' ->
        In (get_setting repr_list m') (map fst (fst (get_settings repr_list m)))).
Proof.
  induction m as [|[key value] m [IH1 IH2]] using rev_ind.
  - split.
    + intros p [<-|[]]. exists []. split; [constructor|reflexivity].
    + intros m' H. inversion H; subst. now left.
  - rewrite get_settings_snoc. cbn [extend_settings fst]. split.
    + intros p Hp. apply In_newret in Hp as (v & pre & Hv & Hpre & ->).
      destruct (IH1 pre Hpre) as (m0 & Hm0 & Hcmd).
      exists (m0 ++ [(key, v)]). split; [now apply picks_snoc|].
      rewrite get_setting_snoc. cbn [new_pair fst]. now rewrite Hcmd.
    + intros m' Hm'. apply picks_snoc_inv in Hm' as (m0 & v & -> & Hm0 & Hv).
      cbn [fst snd] in *. specialize (IH2 m0 Hm0).
      apply in_map_iff in IH2 as (pre & Hcmd & Hpre).
      apply in_map_iff. exists (new_pair repr_list key v pre). split.
      * rewrite get_setting_snoc. cbn [new_pair fst]. now rewrite Hcmd.
      * apply In_newret. eauto.
Qed.

(** X2.  [get_settings] returns no pair at all exactly when some key of
    the map has a value with no item (an empty list or an empty string). *)
Theorem get_settings_empty_iff (repr_list : list pyval -> string) (m : dict) :
  fst (get_settings repr_list m) = [] <->
  exists kv, In kv m /\ value_list (snd kv) = [].
Proof.
  induction m as [|[key value] m IH] using rev_ind.
  - split; [discriminate|]. intros (kv & [] & _).
  - rewrite get_settings_snoc. cbn [extend_settings fst]. split.
    + intros H. destruct (value_list value) as [|v vs] eqn:Ev.
      * exists (key, value). split; [apply in_or_app; right; now left|exact Ev].
      * destruct (fst (get_settings repr_list m)) as [|pre ret] eqn:Er.
        -- destruct (proj1 IH eq_refl) as (kv & Hin & Hkv).
           exists kv. split; [apply in_or_app; now left|exact Hkv].
        -- unfold newret in H. rewrite Ev in H. discriminate.
    + intros (kv & Hin & Hkv). apply in_app_or in Hin as [Hin|[<-|[]]].
      * assert (Hr : fst (get_settings repr_list m) = []) by (apply IH; eauto).
        unfold newret. rewrite Hr. clear. induction (value_list value); auto.
      * simpl in Hkv. unfold newret. now rewrite Hkv.
Qed.

(** X3.  When [get_settings] returns, the dictionary object it was given
    is empty, whatever it held; the value returned is that of the
    expansion. *)
Theorem get_settings_in_place_empties (repr_list : list pyval -> string) (m : dict) :
  get_settings_in_place repr_list m = (get_settings repr_list m, []).
Proof.
  induction m as [|[key value] m IH] using rev_ind; [reflexivity|].
  rewrite get_settings_in_place_snoc, get_settings_snoc, IH. reflexivity.
Qed.

(** X4.  [get_setting] of two dictionaries one after the other is the
    concatenation of their texts. *)
Theorem get_setting_app (repr_list : list pyval -> string) (m1 m2 : dict) :
  get_setting repr_list (m1 ++ m2)
  = get_setting repr_list m1 +:+ get_setting repr_list m2.
Proof.
  unfold get_setting. rewrite fold_left_app, !get_setting_from.
  now rewrite append_assoc.
Qed.

(** ** File names: underscores between clean texts *)

Lemma lstrip_no_start (s : string) : startswith "_" s = false -> lstrip "_" s = s.
Proof.
  destruct s as [|a s]; [reflexivity|].
  change (startswith "_" (String a s)) with (Ascii.eqb "_" a && true).
  change (lstrip "_" (String a s))
    with (if Ascii.eqb a "_" then lstrip "_" s else String a s).
  rewrite andb_true_r, Ascii.eqb_sym. now intros ->.
Qed.

Lemma rstrip_no_end (c : ascii) (s : string) :
  endswith_char c s = false -> rstrip c s = s.
Proof.
  induction s as [|a s IH]; [reflexivity|].
  destruct s as [|b s].
  - change (endswith_char c (String a "")) with (Ascii.eqb a c).
    change (rstrip c (String a ""))
      with (if Ascii.eqb a c then "" else String a "").
    now intros ->.
  - change (endswith_char c (String a (String b s)))
      with (endswith_char c (String b s)).
    intros H. cbn [rstrip] in *. rewrite (IH H). reflexivity.
Qed.

Lemma startswith_app (a b : string) :
  a <> "" -> startswith "_" (a +:+ b) = startswith "_" a.
Proof. destruct a as [|x a]; [congruence|]. reflexivity. Qed.

Lemma endswith_char_app (c : ascii) (a b : string) :
  b <> "" -> endswith_char c (a +:+ b) = endswith_char c b.
Proof.
  intros Hb. induction a as [|x a IH]; [reflexivity|].
  rewrite append_cons.
  assert (Hab : a +:+ b <> "") by (destruct a; [exact Hb|discriminate]).
  destruct (a +:+ b) as [|y r] eqn:E; [congruence|].
  change (endswith_char c (String x (String y r)))
    with (endswith_char c (String y r)).
  exact IH.
Qed.

Lemma strip_clean (s : string) : clean s -> strip "_" s = s.
Proof.
  intros (_ & Hs & He). unfold strip. rewrite (lstrip_no_start _ Hs).
  now apply rstrip_no_end.
Qed.

Lemma clean_join (a b : string) : clean a -> clean b -> clean (a +:+ "_" +:+ b).
Proof.
  intros (Ha & Has & _) (Hb & _ & Hbe). split; [|split].
  - destruct a; [congruence|discriminate].
  - now rewrite startswith_app.
  - rewrite endswith_char_app by (destruct a; discriminate).
    change ("_" +:+ b) with (String "_" b). simpl.
    destruct b; [congruence|exact Hbe].
Qed.

Lemma concat_snoc (sep : string) (l : list string) (x y : string) :
  String.concat sep ((x :: l) ++ [y]) = String.concat sep (x :: l) +:+ sep +:+ y.
Proof.
  revert x. induction l as [|z l IH]; intros x; [reflexivity|].
  change (String.concat sep ((x :: z :: l) ++ [y]))
    with (x +:+ sep +:+ String.concat sep ((z :: l) ++ [y])).
  rewrite IH.
  change (String.concat sep (x :: z :: l))
    with (x +:+ sep +:+ String.concat sep (z :: l)).
  now rewrite !append_assoc.
Qed.

Lemma joined_clean (l : list string) :
  Forall clean l ->
  joined l = String.concat "_" l /\ (l = [] \/ clean (joined l)).
Proof.
  induction l as [|x l IH] using rev_ind; intros Hl.
  - split; [reflexivity|now left].
  - apply Forall_app in Hl as [Hl Hx]. inversion Hx as [|? ? Hcx _]; subst.
    destruct (IH Hl) as [Ej Hc]. unfold joined in *. rewrite fold_left_app.
    cbn [fold_left]. rewrite Ej. destruct l as [|y l].
    + simpl. change ("" +:+ "_" +:+ x) with (String "_" x).
      unfold strip. cbn [lstrip]. rewrite Ascii.eqb_refl.
      fold (strip "_" x). rewrite (strip_clean _ Hcx). split; [reflexivity|now right].
    + destruct Hc as [Hc|Hc]; [discriminate|]. rewrite Ej in Hc.
      assert (Hj := clean_join _ _ Hc Hcx).
      rewrite (strip_clean _ Hj), concat_snoc. split; [reflexivity|now right].
Qed.

Lemma get_settings_format_joined (repr_list : list pyval -> string) (m : dict) :
  snd (get_settings repr_list m) = joined (map fst m).
Proof.
  induction m as [|[key value] m IH] using rev_ind; [reflexivity|].
  rewrite get_settings_snoc, map_app. unfold joined in *.
  rewrite fold_left_app. cbn [extend_settings snd map fold_left fst].
  now rewrite IH.
Qed.

Lemma get_settings_names_joined (repr_list : list pyval -> string) (m : dict) p :
  In p (fst (get_settings repr_list m)) ->
  exists m', picks m m' /\ fst p = get_setting repr_list m'
             /\ snd p = joined (map (fun kv => format repr_list (snd kv)) m').
Proof.
  revert p. induction m as [|[key value] m IH] using rev_ind; intros p.
  - intros [<-|[]]. exists []. repeat split. constructor.
  - rewrite get_settings_snoc. cbn [extend_settings fst]. intros Hp.
    apply In_newret in Hp as (v & pre & Hv & Hpre & ->).
    destruct (IH pre Hpre) as (m0 & Hm0 & Hcmd & Hfn).
    exists (m0 ++ [(key, v)]). split; [now apply picks_snoc|].
    rewrite get_setting_snoc, map_app. unfold joined in *.
    rewrite fold_left_app. cbn [new_pair fst snd map fold_left].
    now rewrite Hcmd, Hfn.
Qed.

(** X5.  When no key is empty or starts or ends with an underscore, the
    file-name format [get_settings] returns is the keys of the map, in
    insertion order, with one underscore between neighbours. *)
Theorem get_settings_format_keys (repr_list : list pyval -> string) (m : dict) :
  Forall (fun kv => clean (fst kv)) m ->
  snd (get_settings repr_list m) = String.concat "_" (map fst m).
Proof.
  intros H. rewrite get_settings_format_joined.
  apply joined_clean. now apply Forall_map.
Qed.

Lemma get_settings_format_keys_witness :
  snd (get_settings simple_repr_list example_2_by_3) = "a_b".
Proof.
  apply (get_settings_format_keys simple_repr_list example_2_by_3).
  repeat constructor; simpl; discriminate.
Defined.

(** X6.  When the text of every item of every value is not empty and
    neither starts nor ends with an underscore, each pair [get_settings]
    returns is made from one choice of an item per key: its command is
    [get_setting] of that choice and its file name is the texts of the
    chosen items, in the order of the keys, with one underscore between
    neighbours. *)
Theorem get_settings_file_names (repr_list : list pyval -> string) (m : dict) p :
  Forall (fun kv => Forall (fun v => clean (format repr_list v))
                           (value_list (snd kv))) m ->
  In p (fst (get_settings repr_list m)) ->
  exists m', picks m m'
    /\ fst p = get_setting repr_list m'
    /\ snd p = String.concat "_" (map (fun kv => format repr_list (snd kv)) m').
Proof.
  intros Hc Hp.
  destruct (get_settings_names_joined repr_list m p Hp) as (m' & Hm' & Hcmd & Hfn).
  exists m'. split; [exact Hm'|]. split; [exact Hcmd|]. rewrite Hfn.
  apply joined_clean. apply Forall_map.
  unfold picks in Hm'. clear Hp Hcmd Hfn.
  induction Hm' as [|kv kv' m m' [_ Hin] _ IH]; [constructor|].
  inversion Hc as [|? ? Hkv Hrest]; subst. constructor; [|now apply IH].
  rewrite List.Forall_forall in Hkv. now apply Hkv.
Qed.

Lemma get_settings_file_names_witness :
  exists m', picks example_2_by_3 m'
    /\ " --a=2 --b=4" = get_setting simple_repr_list m'
    /\ "2_4" = String.concat "_" (map (fun kv => format simple_repr_list (snd kv)) m').
Proof.
  apply (get_settings_file_names simple_repr_list example_2_by_3
           (" --a=2 --b=4", "2_4")).
  - repeat constructor; simpl; discriminate.
  - vm_compute. tauto.
Defined.

(** * Further properties of the CPU probe *)

Lemma In_combine_seq_intro (sample : list Q) (a n j : nat) (u : Q) :
  j < n -> sample !! j = Some u -> In (a + j, u) (combine (seq a n) sample).
Proof.
  revert a sample j. induction n as [|n IH]; intros a sample j Hj Hu; [lia|].
  destruct sample as [|q sample]; [discriminate|]. simpl.
  destruct j as [|j].
  - injection Hu as ->. left. f_equal. lia.
  - right. replace (a + S j) with (S a + j) by lia. apply IH; [lia|exact Hu].
Qed.

Lemma combine_seq_by_core (sample : list Q) (a n : nat) :
  StronglySorted by_core (combine (seq a n) sample).
Proof.
  revert a sample. induction n as [|n IH]; intros a sample; [constructor|].
  destruct sample as [|q sample]; [constructor|]. simpl.
  constructor; [apply IH|].
  rewrite List.Forall_forall. intros [i u] Hin.
  apply In_combine_seq in Hin as [Hi _]. unfold by_core. simpl. lia.
Qed.

Lemma filter_StronglySorted {A : Type} (R : A -> A -> Prop) (f : A -> bool)
    (l : list A) :
  StronglySorted R l -> StronglySorted R (List.filter f l).
Proof.
  induction 1 as [|x l Hs IH Hx]; simpl; [constructor|].
  destruct (f x); [|exact IH]. constructor; [exact IH|].
  rewrite List.Forall_forall in *. intros y Hy.
  apply filter_In in Hy as [Hy _]. now apply Hx.
Qed.

Lemma by_core_NoDup (l : list (nat * Q)) :
  StronglySorted by_core l -> List.NoDup (map fst l).
Proof.
  induction 1 as [|x l Hs IH Hx]; simpl; constructor; [|exact IH].
  intros Hin. apply in_map_iff in Hin as (y & Hy & Hin).
  rewrite List.Forall_forall in Hx. specialize (Hx y Hin).
  unfold by_core in Hx. lia.
Qed.

Lemma le_by_util_then_core (x y : nat * Q) :
  (snd x <= snd y)%Q -> fst x < fst y -> by_util_then_core x y.
Proof.
  intros Hle Hlt. destruct (Qle_lt_or_eq _ _ Hle) as [H|H]; [now left|now right].
Qed.

Lemma by_util_then_core_le (x y : nat * Q) :
  by_util_then_core x y -> (snd x <= snd y)%Q.
Proof.
  intros [H|[H _]]; [now apply Qlt_le_weak|]. rewrite H. apply Qle_refl.
Qed.

Lemma insert_by_util_stable (x : nat * Q) (l : list (nat * Q)) :
  StronglySorted by_util_then_core l -> Forall (by_core x) l ->
  StronglySorted by_util_then_core (insert_by_util x l).
Proof.
  induction 1 as [|y l Hs IH Hy]; intros Hx; simpl.
  - repeat constructor.
  - inversion Hx as [|? ? Hxy Hxl]; subst.
    destruct (Qle_bool (snd x) (snd y)) eqn:E.
    + apply Qle_bool_iff in E. constructor; [now constructor|].
      constructor; [now apply le_by_util_then_core|].
      rewrite List.Forall_forall in *. intros z Hz.
      apply le_by_util_then_core; [|now apply Hxl].
      apply Qle_trans with (snd y); [exact E|].
      apply by_util_then_core_le. now apply Hy.
    + assert (Hyx : (snd y < snd x)%Q).
      { apply Qnot_le_lt. intros Hle. apply Qle_bool_iff in Hle. congruence. }
      constructor; [now apply IH|].
      rewrite List.Forall_forall in *. intros z Hz.
      apply (Permutation_in _ (insert_by_util_perm x l)) in Hz.
      destruct Hz as [<-|Hz]; [now left|now apply Hy].
Qed.

Lemma sorted_by_util_stable (l : list (nat * Q)) :
  StronglySorted by_core l -> StronglySorted by_util_then_core (sorted_by_util l).
Proof.
  induction 1 as [|x l Hs IH Hx]; simpl; [constructor|].
  apply insert_by_util_stable; [exact IH|].
  eapply Permutation_Forall; [|exact Hx].
  symmetry. apply sorted_by_util_perm.
Qed.

(** X7.  Every core of the machine whose sampled utilisation is strictly
    below the threshold is in the answer of [get_free_cpu], with that
    utilisation. *)
Theorem get_free_cpu_complete (cpu_num : nat) (sample : list Q) (perc : Q)
    (i : nat) (u : Q) :
  i < cpu_num -> sample !! i = Some u -> (u < perc)%Q ->
  In (i, u) (get_free_cpu cpu_num sample perc).
Proof.
  intros Hi Hu Hlt. unfold get_free_cpu.
  apply (Permutation_in _ (Permutation_sym (sorted_by_util_perm _))).
  apply filter_In. split.
  - apply (In_combine_seq_intro sample 0 cpu_num i u Hi Hu).
  - now apply Qltb_lt.
Qed.

Lemma get_free_cpu_complete_witness :
  In (2, (19 # 1)%Q) (get_free_cpu 4 [30 # 1; 5 # 2; 19 # 1; 5 # 2; 20 # 1]%Q 20).
Proof.
  apply (get_free_cpu_complete 4 [30 # 1; 5 # 2; 19 # 1; 5 # 2; 20 # 1]%Q 20
           2 (19 # 1)%Q); [lia|reflexivity|reflexivity].
Defined.

(** X8.  No core occurs twice in the answer of [get_free_cpu], and the
    answer has at most as many entries as the machine has cores and as the
    sample has figures. *)
Theorem get_free_cpu_distinct (cpu_num : nat) (sample : list Q) (perc : Q) :
  List.NoDup (map fst (get_free_cpu cpu_num sample perc))
  /\ length (get_free_cpu cpu_num sample perc) <= Nat.min cpu_num (length sample).
Proof.
  unfold get_free_cpu. split.
  - eapply Permutation_NoDup.
    + apply Permutation_map. symmetry. apply sorted_by_util_perm.
    + apply by_core_NoDup, filter_StronglySorted, combine_seq_by_core.
  - rewrite (Permutation_length (sorted_by_util_perm _)).
    etransitivity; [apply filter_length_le|].
    rewrite length_combine, length_seq. reflexivity.
Qed.

(** X9.  The sort of [get_free_cpu] is stable: its answer is in ascending
    order of utilisation, and cores of equal utilisation come in ascending
    order of core index. *)
Theorem get_free_cpu_ties (cpu_num : nat) (sample : list Q) (perc : Q) :
  StronglySorted by_util_then_core (get_free_cpu cpu_num sample perc).
Proof.
  unfold get_free_cpu.
  apply sorted_by_util_stable, filter_StronglySorted, combine_seq_by_core.
Qed.

(** * Further properties of the process tree reaper *)

Lemma io_bind_fst {A B : Type} (m : io A) (f : A -> io B) :
  fst (m ≫= f) = fst m ++ match snd m with
                          | Ok a => fst (f a)
                          | Raise _ => []
                          end.
Proof.
  destruct m as [t [a|e]].
  - now rewrite io_bind_ret.
  - rewrite io_bind_raise. simpl. now rewrite app_nil_r.
Qed.

Lemma io_bind_snd {A B : Type} (m : io A) (f : A -> io B) :
  snd (m ≫= f) = match snd m with
                 | Ok a => snd (f a)
                 | Raise e => Raise e
                 end.
Proof.
  destruct m as [t [a|e]]; [now rewrite io_bind_ret|now rewrite io_bind_raise].
Qed.

(** Case analysis on the next answer, keeping the exception abstract. *)
Ltac case_outcome :=
  match goal with
  | |- context [match ?x with Ok _ => _ | Raise _ => _ end] =>
      let e := fresh "e" in destruct x as [[]|e] eqn:?; simpl
  | |- context [if is_TimeoutExpired ?e then _ else _] =>
      destruct e; simpl
  | |- context [if is_NoSuchProcess ?e then _ else _] =>
      destruct e; simpl
  end.

Section ReaperMore.

Variable ps : psutil.

(** What one iteration sends: at most one SIGTERM and one SIGKILL, to its
    own process; a SIGTERM only to a profiler; a SIGKILL to a profiler
    only after the graceful attempt timed out. *)
Lemma reap_one_signals (c : Z) :
  (sigterms (fst (reap_one ps c)) = []
   \/ sigterms (fst (reap_one ps c)) = [c] /\ profiler ps c)
  /\ (kills (fst (reap_one ps c)) = []
      \/ kills (fst (reap_one ps c)) = [c]
         /\ (ordinary ps c
             \/ profiler ps c
                /\ snd (perf_graceful ps c) = Raise TimeoutExpired)).
Proof.
  unfold ordinary, profiler, reap_one, perf_graceful, perf_escalate,
    syscall, emit, try_except.
  unfold mbind, io_bind, mret, io_ret.
  destruct (name ps c) as [nm|e] eqn:En; simpl.
  2: { destruct e; simpl; auto. }
  destruct (contains "perf" nm) eqn:Ep; simpl.
  - repeat case_outcome; (split; [right; split; [reflexivity|eauto]|]); auto;
      right; (split; [reflexivity|]); right; eauto.
  - repeat case_outcome; (split; [auto|]); right; (split; [reflexivity|]);
      left; eauto.
Qed.

Lemma reap_all_cons (c : Z) (ch : list Z) :
  reap_all ps (c :: ch) = reap_one ps c ≫= fun _ => reap_all ps ch.
Proof. reflexivity. Qed.

Lemma visited_reap_all_prefix (ch : list Z) :
  visited (fst (reap_all ps ch)) `prefix_of` ch.
Proof.
  induction ch as [|c ch IH]; [apply prefix_nil|].
  rewrite reap_all_cons, io_bind_fst, visited_app.
  rewrite (proj2 (reap_one_catches ps c)).
  apply prefix_cons. destruct (snd (reap_one ps c)); [exact IH|apply prefix_nil].
Qed.

Lemma signals_reap_all_sublist (ch : list Z) :
  kills (fst (reap_all ps ch)) `sublist_of` visited (fst (reap_all ps ch))
  /\ sigterms (fst (reap_all ps ch)) `sublist_of` visited (fst (reap_all ps ch)).
Proof.
  induction ch as [|c ch [IHk IHs]]; [split; apply sublist_nil|].
  rewrite reap_all_cons, io_bind_fst, visited_app.
  unfold kills, sigterms in *. rewrite !omap_app.
  rewrite (proj2 (reap_one_catches ps c)).
  destruct (reap_one_signals c) as [Hs Hk]. unfold kills, sigterms in *.
  assert (Hone : forall l : list Z, l = [] \/ l = [c] -> l `sublist_of` [c]).
  { intros l [-> | ->]; [apply sublist_nil_l|reflexivity]. }
  split; apply sublist_app.
  - apply Hone. tauto.
  - destruct (snd (reap_one ps c)); [exact IHk|apply sublist_nil_l].
  - apply Hone. tauto.
  - destruct (snd (reap_one ps c)); [exact IHs|apply sublist_nil_l].
Qed.

Lemma sigterms_reap_all (ch : list Z) (c : Z) :
  In c (sigterms (fst (reap_all ps ch))) -> profiler ps c.
Proof.
  induction ch as [|c' ch IH]; [intros []|].
  rewrite reap_all_cons, io_bind_fst. unfold sigterms in *. rewrite omap_app.
  intros Hin. apply in_app_or in Hin as [Hin|Hin].
  - destruct (reap_one_signals c') as [[Hs|[Hs Hp]] _]; unfold sigterms in Hs;
      rewrite Hs in Hin; [destruct Hin|].
    destruct Hin as [<-|[]]. exact Hp.
  - destruct (snd (reap_one ps c')); [now apply IH|destruct Hin].
Qed.

Lemma kills_reap_all (ch : list Z) (c : Z) :
  In c (kills (fst (reap_all ps ch))) ->
  ordinary ps c
  \/ profiler ps c /\ snd (perf_graceful ps c) = Raise TimeoutExpired.
Proof.
  induction ch as [|c' ch IH]; [intros []|].
  rewrite reap_all_cons, io_bind_fst. unfold kills in *. rewrite omap_app.
  intros Hin. apply in_app_or in Hin as [Hin|Hin].
  - destruct (reap_one_signals c') as [_ [Hk|[Hk Hp]]]; unfold kills in Hk;
      rewrite Hk in Hin; [destruct Hin|].
    destruct Hin as [<-|[]]. exact Hp.
  - destruct (snd (reap_one ps c')); [now apply IH|destruct Hin].
Qed.

(** The call either stops before its loop, with nothing done, or runs the
    loop on the root and its descendants and then waits for them. *)
Lemma kill_proc_tree_cases (p : proc_arg) :
  (exists e, kill_proc_tree ps p = ([], Raise e))
  \/ exists pid desc,
       resolve ps p = ([], Ok pid) /\ children ps pid = Ok desc
       /\ kill_proc_tree ps p
          = reap_all ps (pid :: desc) ≫= fun _ =>
              syscall (WaitProcs (pid :: desc)) (Ok (wait_procs ps (pid :: desc))).
Proof.
  unfold kill_proc_tree.
  assert (Hres : (exists e, resolve ps p = ([], Raise e))
                 \/ exists pid, resolve ps p = ([], Ok pid)).
  { destruct p as [pid|pid|pid]; simpl; try (right; eexists; reflexivity);
      destruct (Process ps pid); eauto. }
  destruct Hres as [[e He]|[pid Hpid]].
  - left. exists e. now rewrite He, io_bind_raise.
  - rewrite Hpid, io_bind_ret. cbn [fst snd app].
    destruct (children ps pid) as [desc|e] eqn:Ec.
    + right. exists pid, desc. rewrite io_mret_bind.
      split; [reflexivity|]. split; [exact Ec|]. now destruct (_ ≫= _).
    + left. exists e. unfold raise. rewrite io_bind_raise. reflexivity.
Qed.

Lemma kill_proc_tree_projection (sel : event -> option Z) (p : proc_arg) :
  (forall pids, sel (WaitProcs pids) = None) ->
  omap sel (fst (kill_proc_tree ps p)) = []
  \/ exists pid desc,
       resolve ps p = ([], Ok pid) /\ children ps pid = Ok desc
       /\ omap sel (fst (kill_proc_tree ps p))
          = omap sel (fst (reap_all ps (pid :: desc))).
Proof.
  intros Hsel. destruct (kill_proc_tree_cases p) as [[e ->]|(pid & desc & Hr & Hc & ->)].
  - now left.
  - right. exists pid, desc. split; [exact Hr|]. split; [exact Hc|].
    rewrite io_bind_fst, omap_app.
    destruct (snd (reap_all ps (pid :: desc))); simpl; [rewrite Hsel|];
      now rewrite app_nil_r.
Qed.

End ReaperMore.

Lemma reap_one_ordinary (ps : psutil) (c : Z) :
  ordinary ps c ->
  reap_one ps c
  = ([Name c; Kill c],
     match kill ps c with
     | Raise e => if is_NoSuchProcess e then Ok tt else Raise e
     | Ok u => Ok u
     end).
Proof.
  intros (nm & Hn & Hp).
  unfold reap_one, syscall, try_except, mbind, io_bind, mret, io_ret.
  rewrite Hn, Hp. simpl. destruct (kill ps c) as [[]|e]; [reflexivity|].
  destruct e; reflexivity.
Qed.

Lemma reap_all_killable (ps : psutil) (ch : list Z) :
  Forall (killable ps) ch ->
  reap_all ps ch = (flat_map (fun c => [Name c; Kill c]) ch, Ok tt).
Proof.
  induction 1 as [|c ch [Ho Hk] _ IH]; [reflexivity|].
  rewrite reap_all_cons, (reap_one_ordinary ps c Ho).
  destruct Hk as [-> | ->]; cbn [is_NoSuchProcess];
    rewrite io_bind_ret, IH; reflexivity.
Qed.

(** X10.  On a tree of ordinary processes (none named after [perf]),
    each alive or just gone when its turn comes, [kill_proc_tree] looks at
    the root and then at the descendants in order, sends each one SIGKILL
    and nothing else, then calls [wait_procs] once on the whole list and
    returns its answer. *)
Theorem kill_proc_tree_ordinary (ps : psutil) (p : proc_arg) (pid : Z)
    (desc : list Z) :
  resolve ps p = ([], Ok pid) ->
  children ps pid = Ok desc ->
  Forall (killable ps) (pid :: desc) ->
  kill_proc_tree ps p
  = (flat_map (fun c => [Name c; Kill c]) (pid :: desc) ++ [WaitProcs (pid :: desc)],
     Ok (wait_procs ps (pid :: desc))).
Proof.
  intros Hres Hch Hall. unfold kill_proc_tree.
  rewrite Hres, io_bind_ret, Hch, io_mret_bind. cbn [fst snd app].
  rewrite (reap_all_killable ps _ Hall), io_bind_ret. reflexivity.
Qed.

Lemma plain_tree_killable : Forall (killable plain_tree) [10; 11; 12]%Z.
Proof.
  repeat constructor; exists "ns3-sim"; split; reflexivity.
Defined.

Lemma kill_proc_tree_ordinary_witness :
  kill_proc_tree plain_tree (PidInt 10)
  = ([Name 10; Kill 10; Name 11; Kill 11; Name 12; Kill 12;
      WaitProcs [10; 11; 12]%Z],
     Ok ([10; 11; 12]%Z, [])).
Proof.
  exact (kill_proc_tree_ordinary plain_tree (PidInt 10) 10 [11; 12]%Z
           eq_refl eq_refl plain_tree_killable).
Defined.

(** X11.  The loop of [kill_proc_tree] goes through the root and its
    descendants in order and may stop early, and it signals only
    processes it has looked at, in that order, each at most once per
    occurrence in the list: the processes looked at are a prefix of the
    list, and the processes sent SIGKILL, and those sent SIGTERM, are
    subsequences of the processes looked at. *)
Theorem kill_proc_tree_signals_in_tree (ps : psutil) (p : proc_arg) (pid : Z)
    (desc : list Z) :
  resolve ps p = ([], Ok pid) ->
  children ps pid = Ok desc ->
  visited (fst (kill_proc_tree ps p)) `prefix_of` (pid :: desc)
  /\ kills (fst (kill_proc_tree ps p)) `sublist_of` visited (fst (kill_proc_tree ps p))
  /\ sigterms (fst (kill_proc_tree ps p))
       `sublist_of` visited (fst (kill_proc_tree ps p)).
Proof.
  intros Hres Hch. unfold kill_proc_tree.
  rewrite Hres, io_bind_ret, Hch, io_mret_bind. cbn [fst snd app].
  rewrite io_bind_fst, visited_app. unfold kills, sigterms. rewrite !omap_app.
  assert (Hv : visited match snd (reap_all ps (pid :: desc)) with
                       | Ok _ => fst (syscall (WaitProcs (pid :: desc))
                                        (Ok (wait_procs ps (pid :: desc))))
                       | Raise _ => []
                       end = []) by (now destruct (snd _)).
  assert (Hk : forall sel, (forall pids, sel (WaitProcs pids) = None) ->
               omap sel match snd (reap_all ps (pid :: desc)) with
                        | Ok _ => fst (syscall (WaitProcs (pid :: desc))
                                         (Ok (wait_procs ps (pid :: desc))))
                        | Raise _ => []
                        end = ([] : list Z)).
  { intros sel Hsel. destruct (snd _); simpl; [now rewrite Hsel|reflexivity]. }
  rewrite Hv, !Hk, !app_nil_r by reflexivity.
  split; [apply visited_reap_all_prefix|]. apply signals_reap_all_sublist.
Qed.

Lemma kill_proc_tree_signals_in_tree_witness :
  visited (fst (kill_proc_tree vanishing_tree (PidInt 1))) `prefix_of` [1; 2; 3; 4]%Z
  /\ kills (fst (kill_proc_tree vanishing_tree (PidInt 1)))
       `sublist_of` visited (fst (kill_proc_tree vanishing_tree (PidInt 1)))
  /\ sigterms (fst (kill_proc_tree vanishing_tree (PidInt 1)))
       `sublist_of` visited (fst (kill_proc_tree vanishing_tree (PidInt 1))).
Proof.
  exact (kill_proc_tree_signals_in_tree vanishing_tree (PidInt 1) 1 [2; 3; 4]%Z
           eq_refl eq_refl).
Defined.

(** X12.  [kill_proc_tree] sends SIGTERM only to a process whose name
    holds [perf]. *)
Theorem kill_proc_tree_sigterm_profiler (ps : psutil) (p : proc_arg) (c : Z) :
  In c (sigterms (fst (kill_proc_tree ps p))) -> profiler ps c.
Proof.
  unfold sigterms.
  destruct (kill_proc_tree_projection ps
              (fun ev => match ev with SendSigterm pid => Some pid | _ => None end) p)
    as [-> | (pid & desc & _ & _ & ->)]; [reflexivity|intros []|].
  apply sigterms_reap_all.
Qed.

Lemma kill_proc_tree_sigterm_profiler_witness : profiler vanishing_tree 2.
Proof.
  apply (kill_proc_tree_sigterm_profiler vanishing_tree (PidInt 1) 2).
  vm_compute. tauto.
Defined.

(** X13.  [kill_proc_tree] sends SIGKILL to a process whose name holds
    [perf] only after its graceful attempt (SIGTERM, then a wait of ten
    seconds) raised [TimeoutExpired]; every other process it kills has a
    name without [perf]. *)
Theorem kill_proc_tree_kill_policy (ps : psutil) (p : proc_arg) (c : Z) :
  In c (kills (fst (kill_proc_tree ps p))) ->
  ordinary ps c
  \/ profiler ps c /\ snd (perf_graceful ps c) = Raise TimeoutExpired.
Proof.
  unfold kills.
  destruct (kill_proc_tree_projection ps
              (fun ev => match ev with Kill pid => Some pid | _ => None end) p)
    as [-> | (pid & desc & _ & _ & ->)]; [reflexivity|intros []|].
  apply kills_reap_all.
Qed.

Lemma kill_proc_tree_kill_policy_witness :
  ordinary vanishing_tree 2
  \/ profiler vanishing_tree 2
     /\ snd (perf_graceful vanishing_tree 2) = Raise TimeoutExpired.
Proof.
  apply (kill_proc_tree_kill_policy vanishing_tree (PidInt 1) 2).
  vm_compute. tauto.
Defined.

(** X14.  An error other than [NoSuchProcess] ends the call at once: when
    killing an ordinary process of the list raises such an error, after
    ordinary processes that were killed or gone, the call raises that
    error; the processes after it are not looked at and [wait_procs] is
    not called. *)
Theorem kill_proc_tree_error_aborts (ps : psutil) (p : proc_arg) (pid : Z)
    (desc before after : list Z) (c : Z) (e : exn) :
  resolve ps p = ([], Ok pid) ->
  children ps pid = Ok desc ->
  pid :: desc = before ++ c :: after ->
  Forall (killable ps) before ->
  ordinary ps c -> kill ps c = Raise e -> e <> NoSuchProcess ->
  kill_proc_tree ps p
  = (flat_map (fun c => [Name c; Kill c]) (before ++ [c]), Raise e).
Proof.
  intros Hres Hch Hsplit Hb Ho Hk He. unfold kill_proc_tree.
  rewrite Hres, io_bind_ret, Hch, io_mret_bind. cbn [fst snd app].
  rewrite Hsplit. clear Hsplit Hres Hch.
  assert (Hloop : reap_all ps (before ++ c :: after)
                  = (flat_map (fun c => [Name c; Kill c]) (before ++ [c]), Raise e)).
  { induction Hb as [|b before [Hbo Hbk] _ IH].
    - cbn [app]. rewrite reap_all_cons, (reap_one_ordinary ps c Ho), Hk.
      destruct e; try congruence; reflexivity.
    - cbn [app]. rewrite reap_all_cons, (reap_one_ordinary ps b Hbo).
      destruct Hbk as [-> | ->]; cbn [is_NoSuchProcess];
        rewrite io_bind_ret, IH; reflexivity. }
  rewrite Hloop, io_bind_raise. reflexivity.
Qed.

Lemma kill_proc_tree_error_aborts_witness :
  kill_proc_tree denied_tree (PidInt 10)
  = ([Name 10; Kill 10; Name 11; Kill 11], Raise AccessDenied).
Proof.
  apply (kill_proc_tree_error_aborts denied_tree (PidInt 10) 10 [11; 12]%Z
           [10]%Z [12]%Z 11 AccessDenied eq_refl eq_refl eq_refl).
  - repeat constructor. exists "ns3-sim". split; reflexivity.
  - exists "ns3-sim". split; reflexivity.
  - reflexivity.
  - discriminate.
Defined.

(** * Further properties of the launch driver *)

(** One step of an [io] computation, leaving texts and paths alone. *)
Ltac io_step :=
  lazy beta iota delta [mbind io_bind mret io_ret syscall emit raise negb].

Section LaunchMore.

Variable repr_list : list pyval -> string.
Variable sys : os.


Lemma filter_first {A : Type} (f : A -> bool) (l : list A) (x : A) (r : list A) :
  List.filter f l = x :: r ->
  exists before after, l = before ++ x :: after /\ f x = true
                       /\ Forall (fun y => f y = false) before.
Proof.
  induction l as [|y l IH]; [discriminate|]. simpl.
  destruct (f y) eqn:Ey.
  - intros [= -> <-]. exists [], l. auto.
  - intros H. destruct (IH H) as (before & after & -> & Hx & Hb).
    exists (y :: before), after. auto.
Qed.

Lemma filter_none {A : Type} (f : A -> bool) (l : list A) :
  Forall (fun y => f y = false) l -> List.filter f l = [].
Proof. induction 1 as [|y l Hy _ IH]; simpl; [reflexivity|]. now rewrite Hy. Qed.

(** X16.  In a call that returns, the caller passed a dictionary, and the
    child's environment is made from it as follows.  [LD_LIBRARY_PATH] is
    the absolute path of [<path>/build/lib], whatever the caller or the
    process environment said.  When the caller's dictionary is empty the
    child gets that variable and nothing else, not even the process
    environment.  Otherwise every other variable has the value of the
    process environment when it is set there, and the caller's value only
    when it is not. *)
Theorem run_single_ns3_environment (path pname : string)
    (setting : option dict) (env : option (gmap string string))
    (show_output profile_ns3 build : bool) (t : list event) (proc : popen_args) :
  run_single_ns3 repr_list sys path pname setting env show_output profile_ns3 build
  = (t, Ok proc) ->
  exists e child,
    env = Some e /\ popen_env proc = Some child
    /\ child !! "LD_LIBRARY_PATH"
       = Some (abspath sys (path_join (path_join path "build") "lib"))
    /\ (e = ∅ ->
        child = {["LD_LIBRARY_PATH" :=
                   abspath sys (path_join (path_join path "build") "lib")]})
    /\ (e <> ∅ -> forall k, k <> "LD_LIBRARY_PATH" ->
        child !! k = match environ sys !! k with
                     | Some x => Some x
                     | None => e !! k
                     end).
Proof.
  intros H.
  destruct (run_single_ns3_env_injected _ _ _ _ _ _ _ _ _ _ _ H)
    as (e & child & He & Hc & Hld & Hk & _).
  exists e, child. split; [exact He|]. split; [exact Hc|]. split; [exact Hld|].
  split.
  - intros ->. apply map_eq. intros k.
    destruct (decide (k = "LD_LIBRARY_PATH")) as [->|Hne].
    + now rewrite Hld, lookup_singleton_eq.
    + rewrite (Hk k Hne), lookup_singleton_ne by congruence.
      rewrite bool_decide_eq_true_2 by reflexivity. apply lookup_empty.
  - intros Hne k Hkne. rewrite (Hk k Hkne).
    rewrite bool_decide_eq_false_2 by exact Hne.
    rewrite lookup_union. destruct (environ sys !! k), (e !! k); reflexivity.
Qed.

(** X17.  Without profiling, a call that returns has listed the program
    directory and started, in the scratch directory, the first listed file
    whose name starts with [ns], whatever files of that kind follow it; the
    command is [./<pname>/<file>] followed by the text of [get_setting] for
    the settings, and the output is piped unless [show_output] is set. *)
Theorem run_single_ns3_executable (path pname : string)
    (setting : option dict) (env : option (gmap string string))
    (show_output build : bool) (t : list event) (proc : popen_args) :
  run_single_ns3 repr_list sys path pname setting env show_output false build
  = (t, Ok proc) ->
  exists before f after,
    listdir sys (program_dir path pname) = Ok (before ++ f :: after)
    /\ startswith "ns" f = true
    /\ Forall (fun g => startswith "ns" g = false) before
    /\ popen_cmd proc
       = "./" +:+ pname +:+ "/" +:+ f
         +:+ match setting with
             | Some s => get_setting repr_list s
             | None => ""
             end
    /\ popen_cwd proc = scratch_dir path
    /\ popen_piped proc = negb show_output.
Proof.
  unfold run_single_ns3. intros H.
  apply io_bind_Ok in H as (t1 & failed & t2 & _ & H & ->).
  destruct failed; [discriminate|].
  apply io_bind_Ok in H as (t3 & e' & t4 & _ & H & ->).
  apply io_bind_Ok in H as (t5 & files & t6 & Hls & H & ->).
  apply io_bind_Ok in H as (t7 & exec_name & t8 & Hex & H & ->).
  apply io_bind_Ok in H as (t9 & cmd & t10 & Hcmd & H & ->).
  apply io_bind_Ok in H as (t11 & u & t12 & _ & H & ->).
  injection H as <- <-. injection Hcmd as <- <-. injection Hls as <- Hls.
  destruct (List.filter (startswith "ns") files) as [|f fs] eqn:Ef; [discriminate|].
  injection Hex as <- <-.
  destruct (filter_first _ _ _ _ Ef) as (before & after & -> & Hf & Hb).
  exists before, f, after. split; [exact Hls|]. split; [exact Hf|].
  split; [exact Hb|]. split; [|split; reflexivity]. cbn [popen_cmd].
  destruct setting as [[|kv s]|]; rewrite ?append_assoc; try reflexivity;
    change (get_setting repr_list []) with ""; now rewrite !append_nil_r.
Qed.

(** X18.  When the build is not asked for or succeeds, the caller passed
    a dictionary, and the program directory lists no file whose name
    starts with [ns], [run_single_ns3] raises [IndexError] right after
    listing the directory; no simulator is started. *)
Theorem run_single_ns3_no_executable (path pname : string)
    (setting : option dict) (e : gmap string string)
    (show_output profile_ns3 build : bool) (files : list string) :
  (build = true -> build_returncode sys path = 0%Z) ->
  listdir sys (program_dir path pname) = Ok files ->
  Forall (fun g => startswith "ns" g = false) files ->
  run_single_ns3 repr_list sys path pname setting (Some e)
                 show_output profile_ns3 build
  = ((if build then build_events path else [])
       ++ [Listdir (program_dir path pname)],
     Raise IndexError).
Proof.
  intros Hb Hls Hnone. unfold run_single_ns3, build_ns3, inject_env.
  fold (scratch_dir path). fold (program_dir path pname).
  rewrite Hls.
  destruct build; [rewrite (Hb eq_refl), Z.eqb_refl|]; io_step;
    rewrite (filter_none _ _ Hnone); reflexivity.
Qed.

(** X19.  Profiling wraps the command and changes nothing else.  When
    the call without profiling returns a process, the call with profiling
    does the same up to the spawn and then, when [perf] is installed,
    starts [<perf> record -o <data file> -g -e cpu-cycles,context-switches
    bash -c '<command>'] with the same directory, environment and
    streams, the data file being [perf.data] under the [outDir] setting or
    under [.] when there is none; when [perf] is not installed it prints
    that and exits with code -1 without starting the simulator. *)
Theorem run_single_ns3_profile (path pname : string)
    (setting : option dict) (env : option (gmap string string))
    (show_output build : bool) (t : list event) (proc : popen_args) :
  run_single_ns3 repr_list sys path pname setting env show_output false build
  = (t, Ok proc) ->
  run_single_ns3 repr_list sys path pname setting env show_output true build
  = match which sys "perf" with
    | Some perf_cmd =>
        let base_out_dir :=
          match setting with
          | Some s => match dict_get "outDir" s with
                      | Some v => format repr_list v
                      | None => "."
                      end
          | None => "."
          end in
        let proc' :=
          {| popen_cmd := perf_cmd +:+ " "
                          +:+ ("record -o " +:+ perf_data_path sys base_out_dir
                               +:+ " -g -e cpu-cycles,context-switches")
                          +:+ " bash -c '" +:+ popen_cmd proc +:+ "'";
             popen_cwd := popen_cwd proc;
             popen_env := popen_env proc;
             popen_piped := popen_piped proc |} in
        (removelast t ++ [Popen proc'], Ok proc')
    | None =>
        (removelast t ++ [Print "Executable 'Perf' was not found"],
         Raise (SystemExit (-1)))
    end.
Proof.
  unfold run_single_ns3, build_ns3, inject_env, check_program_installed.
  destruct build, (build_returncode sys path =? 0)%Z, env as [e|];
    io_step; try discriminate;
    destruct (listdir sys _) as [files|e1]; io_step; try discriminate;
    destruct (List.filter (startswith "ns") files) as [|f fs];
    io_step; try discriminate;
    intros [= <- <-]; destruct (which sys "perf"); reflexivity.
Qed.

End LaunchMore.

Lemma run_single_ns3_environment_witness :
  exists e child : gmap string string,
    Some ({["A" := "1"; "PATH" := "/opt/bin"]} : gmap string string) = Some e
    /\ Some (<["LD_LIBRARY_PATH" := "/home/user/ns3/build/lib"]>
               ({["PATH" := "/usr/bin"]} ∪ {["A" := "1"; "PATH" := "/opt/bin"]}))
       = Some child
    /\ child !! "LD_LIBRARY_PATH" = Some "/home/user/ns3/build/lib"
    /\ (e = ∅ -> child = {["LD_LIBRARY_PATH" := "/home/user/ns3/build/lib"]})
    /\ (e <> ∅ -> forall k, k <> "LD_LIBRARY_PATH" ->
        child !! k = match ({["PATH" := "/usr/bin"]} : gmap string string) !! k with
                     | Some x => Some x
                     | None => e !! k
                     end).
Proof.
  exact (run_single_ns3_environment simple_repr_list working_os "ns3" "sim"
           None (Some {["A" := "1"; "PATH" := "/opt/bin"]}) false false false
           _ _ eq_refl).
Defined.

Lemma run_single_ns3_executable_witness :
  exists before f after,
    Ok ["CMakeFiles"; "ns3.36-sim-default"; "ns3.36-sim-debug"]
    = Ok (before ++ f :: after)
    /\ startswith "ns" f = true
    /\ Forall (fun g => startswith "ns" g = false) before
    /\ "./sim/ns3.36-sim-default --x=1 --y=2"
       = "./" +:+ "sim" +:+ "/" +:+ f +:+ get_setting simple_repr_list example_x1_y2
    /\ "ns3/build/scratch" = scratch_dir "ns3"
    /\ true = negb false.
Proof.
  exact (run_single_ns3_executable simple_repr_list perf_os "ns3" "sim"
           (Some example_x1_y2) (Some ∅) false false _ _ eq_refl).
Defined.

Lemma run_single_ns3_no_executable_witness :
  run_single_ns3 simple_repr_list empty_dir_os "ns3" "sim" None (Some ∅)
                 false false true
  = (build_events "ns3" ++ [Listdir "ns3/build/scratch/sim"], Raise IndexError).
Proof.
  apply (run_single_ns3_no_executable simple_repr_list empty_dir_os "ns3" "sim"
           None ∅ false false true ["CMakeFiles"]).
  - reflexivity.
  - reflexivity.
  - repeat constructor.
Defined.

Lemma run_single_ns3_profile_witness :
  exists t proc,
    run_single_ns3 simple_repr_list perf_os "ns3" "sim"
      (Some [("outDir", VStr "out")]) (Some ∅) false true false
    = (t, Ok proc)
    /\ popen_cmd proc
       = "/usr/bin/perf record -o /home/user/out/perf.data -g -e cpu-cycles,context-switches bash -c './sim/ns3.36-sim-default --outDir=out'".
Proof.
  eexists _, _.
  rewrite (run_single_ns3_profile simple_repr_list perf_os "ns3" "sim"
             (Some [("outDir", VStr "out")]) (Some ∅) false false _ _ eq_refl).
  split; reflexivity.
Defined.

(** * Further properties of the bulk launch scheduler *)

Lemma get_settings_length (repr_list : list pyval -> string) (m : dict) :
  length (fst (get_settings repr_list m)) = cardinality_product m.
Proof.
  induction m as [|[k v] m IH] using rev_ind; [reflexivity|].
  rewrite get_settings_snoc, cardinality_product_snoc. simpl.
  now rewrite length_newret, IH.
Qed.

Section BulkMore.

Variable repr_list : list pyval -> string.
Variable cpu_num : nat.
Variable cpu_percent : nat -> list Q.

(** One pair: with fuel and enough idle cores at its one probe the launch
    is issued without a sleep; otherwise the run does not get past it. *)
Lemma launch_pair_outcome (fuel : nat) (pname common args fn : string) (st : sched) :
  (fuel <> 0 /\ ready cpu_num cpu_percent (probes st)
   /\ exists cmd, launch_pair cpu_num cpu_percent fuel pname common args fn st
                  = Finished {| probes := S (probes st);
                                trace := (trace st ++ [CpuPercent]) ++ [System cmd] |})
  \/ ((fuel = 0 \/ ~ ready cpu_num cpu_percent (probes st))
      /\ launch_pair cpu_num cpu_percent fuel pname common args fn st = Unfinished).
Proof.
  unfold ready.
  destruct (le_lt_dec RESERVE_CPU
              (length (get_free_cpu cpu_num (cpu_percent (probes st)) 20)))
    as [Hge|Hlt].
  - destruct fuel as [|fuel]; [right; split; [now left|reflexivity]|].
    left. split; [discriminate|]. split; [exact Hge|].
    unfold launch_pair. rewrite wait_for_cpus_ready by exact Hge.
    destruct (get_free_cpu cpu_num (cpu_percent (probes st)) 20) as [|[core u] rest].
    + unfold RESERVE_CPU in Hge. simpl in Hge. lia.
    + eexists. reflexivity.
  - right. split; [right; lia|]. now apply launch_pair_stuck.
Qed.

Lemma launch_all_cons (fuel : nat) (pname common args fn : string)
    (params : list (string * string)) (st : sched) :
  launch_all cpu_num cpu_percent fuel pname common ((args, fn) :: params) st
  = match launch_pair cpu_num cpu_percent fuel pname common args fn st with
    | Finished st' => launch_all cpu_num cpu_percent fuel pname common params st'
    | Failed e => Failed e
    | Unfinished => Unfinished
    end.
Proof. reflexivity. Qed.

Lemma launch_all_finished (fuel : nat) (pname common : string)
    (params : list (string * string)) (st st' : sched) :
  launch_all cpu_num cpu_percent fuel pname common params st = Finished st' ->
  probes st' = probes st + length params
  /\ sleeps (trace st') = sleeps (trace st)
  /\ length (launched (trace st')) = length (launched (trace st)) + length params
  /\ forall k, k < length params -> ready cpu_num cpu_percent (probes st + k).
Proof.
  revert st. induction params as [|[args fn] params IH]; intros st.
  - intros [= <-]. repeat split; intros; simpl in *; lia.
  - rewrite launch_all_cons.
    destruct (launch_pair_outcome fuel pname common args fn st)
      as [(_ & Hr & cmd & ->)|[_ ->]]; [|discriminate].
    intros H. apply IH in H as (Hp & Hs & Hl & Hk). cbn [probes trace] in *.
    unfold sleeps, launched in *.
    rewrite !omap_app in Hs. rewrite !omap_app in Hl. cbn in Hs, Hl.
    rewrite !app_nil_r in Hs. rewrite !length_app in Hl. cbn in Hl.
    split; [simpl; lia|]. split; [exact Hs|]. split; [simpl; lia|].
    intros [|k] Hlt; [now rewrite Nat.add_0_r|].
    replace (probes st + S k) with (S (probes st) + k) by lia.
    apply Hk. simpl in Hlt. lia.
Qed.

Lemma launch_all_ready (fuel : nat) (pname common : string)
    (params : list (string * string)) (st : sched) :
  (forall k, k < length params -> ready cpu_num cpu_percent (probes st + k)) ->
  exists st', launch_all cpu_num cpu_percent (S fuel) pname common params st = Finished st'.
Proof.
  revert st. induction params as [|[args fn] params IH]; intros st Hk.
  - eexists. reflexivity.
  - rewrite launch_all_cons.
    destruct (launch_pair_outcome (S fuel) pname common args fn st)
      as [(_ & _ & cmd & ->)|[[Hf|Hn] _]].
    + apply IH. cbn [probes]. intros k Hlt.
      replace (S (probes st) + k) with (probes st + S k) by lia.
      apply Hk. simpl. lia.
    + discriminate.
    + exfalso. apply Hn. rewrite <- (Nat.add_0_r (probes st)).
      apply Hk. simpl. lia.
Qed.

Lemma launch_pair_fuel (fuel : nat) (pname common args fn : string) (st : sched) :
  launch_pair cpu_num cpu_percent (S fuel) pname common args fn st
  = launch_pair cpu_num cpu_percent 1 pname common args fn st.
Proof.
  unfold launch_pair.
  destruct (le_lt_dec RESERVE_CPU
              (length (get_free_cpu cpu_num (cpu_percent (probes st)) 20)))
    as [Hge|Hlt].
  - now rewrite !wait_for_cpus_ready by exact Hge.
  - now rewrite !(wait_for_cpus_stuck _ Hlt).
Qed.

Lemma launch_all_fuel (fuel : nat) (pname common : string)
    (params : list (string * string)) (st : sched) :
  launch_all cpu_num cpu_percent (S fuel) pname common params st = launch_all cpu_num cpu_percent 1 pname common params st.
Proof.
  revert st. induction params as [|[args fn] params IH]; intros st; [reflexivity|].
  rewrite !launch_all_cons, launch_pair_fuel.
  destruct (launch_pair _ _ 1 _ _ _ _ _); auto.
Qed.

Lemma launch_all_not_failed (fuel : nat) (pname common : string)
    (params : list (string * string)) (st : sched) (e : exn) :
  launch_all cpu_num cpu_percent fuel pname common params st <> Failed e.
Proof.
  revert st. induction params as [|[args fn] params IH]; intros st; [discriminate|].
  rewrite launch_all_cons.
  destruct (launch_pair_outcome fuel pname common args fn st)
    as [(_ & _ & cmd & ->)|[_ ->]]; [apply IH|discriminate].
Qed.

End BulkMore.

(** X20.  More fuel never helps [run_bulk_ns3]: with any positive bound on
    the tests of each wait loop the run ends as it does with one test per
    loop.  A wait loop either falls through at its first test or never
    ends. *)
Theorem run_bulk_ns3_fuel (repr_list : list pyval -> string) (cpu_num : nat)
    (cpu_percent : nat -> list Q) (fuel : nat) (path pname : string)
    (commons : dict) (settings : list dict) (debug : bool) :
  run_bulk_ns3 repr_list cpu_num cpu_percent (S fuel) path pname commons settings debug
  = run_bulk_ns3 repr_list cpu_num cpu_percent 1 path pname commons settings debug.
Proof. unfold run_bulk_ns3. apply launch_all_fuel. Qed.

(** X21.  [run_bulk_ns3] never raises: [cpus[0][0]] is only reached past
    the wait loop, with at least [RESERVE_CPU] entries in [cpus]. *)
Theorem run_bulk_ns3_never_fails (repr_list : list pyval -> string) (cpu_num : nat)
    (cpu_percent : nat -> list Q) (fuel : nat) (path pname : string)
    (commons : dict) (settings : list dict) (debug : bool) (e : exn) :
  run_bulk_ns3 repr_list cpu_num cpu_percent fuel path pname commons settings debug
  <> Failed e.
Proof. unfold run_bulk_ns3. apply launch_all_not_failed. Qed.

(** X22.  With fuel for one test per loop or more, [run_bulk_ns3] hands off
    all its launches exactly when every probe it makes, one per pair of the
    concatenated expansions, finds at least [RESERVE_CPU] cores below 20
    per cent. *)
Theorem run_bulk_ns3_finishes_iff (repr_list : list pyval -> string) (cpu_num : nat)
    (cpu_percent : nat -> list Q) (fuel : nat) (path pname : string)
    (commons : dict) (settings : list dict) (debug : bool) :
  (exists st, run_bulk_ns3 repr_list cpu_num cpu_percent (S fuel) path pname
                commons settings debug = Finished st)
  <-> (forall k,
         k < length (flat_map (fun smap => fst (get_settings repr_list smap)) settings) ->
         ready cpu_num cpu_percent k).
Proof.
  unfold run_bulk_ns3. split.
  - intros [st H]. apply launch_all_finished in H as (_ & _ & _ & Hk). exact Hk.
  - intros Hk. apply launch_all_ready. exact Hk.
Qed.

(** X23.  A run of [run_bulk_ns3] that hands off all its launches has
    slept not once, has probed the CPUs once per launch, and has issued as
    many launches as the products of the cardinalities of the setting maps
    add up to. *)
Theorem run_bulk_ns3_finished (repr_list : list pyval -> string) (cpu_num : nat)
    (cpu_percent : nat -> list Q) (fuel : nat) (path pname : string)
    (commons : dict) (settings : list dict) (debug : bool) (st : sched) :
  run_bulk_ns3 repr_list cpu_num cpu_percent fuel path pname commons settings debug
  = Finished st ->
  sleeps (trace st) = []
  /\ length (launched (trace st)) = list_sum (map cardinality_product settings)
  /\ probes st = list_sum (map cardinality_product settings).
Proof.
  unfold run_bulk_ns3. intros H.
  apply launch_all_finished in H as (Hp & Hs & Hl & _). cbn in Hp, Hs, Hl.
  assert (Hn : length (flat_map (fun smap => fst (get_settings repr_list smap)) settings)
               = list_sum (map cardinality_product settings)).
  { rewrite length_flat_map. f_equal. apply map_ext. intros m.
    apply get_settings_length. }
  rewrite Hn in *. auto.
Qed.

Lemma run_bulk_ns3_finished_witness :
  match run_bulk_ns3 simple_repr_list 8 always_idle 1 "ns3" "sim" example_x1_y2
                     [example_2_by_3; example_a12_b3] false with
  | Finished st =>
      sleeps (trace st) = [] /\ length (launched (trace st)) = 8 /\ probes st = 8
  | _ => False
  end.
Proof.
  destruct (run_bulk_ns3 simple_repr_list 8 always_idle 1 "ns3" "sim" example_x1_y2
              [example_2_by_3; example_a12_b3] false) as [st|e|] eqn:E.
  - exact (run_bulk_ns3_finished simple_repr_list 8 always_idle 1 "ns3" "sim"
             example_x1_y2 [example_2_by_3; example_a12_b3] false st E).
  - vm_compute in E. discriminate E.
  - vm_compute in E. discriminate E.
Defined.

Lemma launch_pair_ready_witness :
  exists core u rest,
    get_free_cpu 8 (always_idle 0) 20 = (core, u) :: rest
    /\ Forall (by_util (core, u)) rest
    /\ launch_pair 8 always_idle 1 "sim" " --c=7" " --a=1" "1"
         {| probes := 0; trace := [] |}
       = Finished
           {| probes := 1;
              trace := ([] ++ [CpuPercent])
                       ++ [System ("taskset -c " +:+ str_of_nat core
                                   +:+ " nohup ./waf --run " +:+ "sim" +:+ " --c=7"
                                   +:+ " --a=1" +:+ " > " +:+ "1" +:+ "&")] |}.
Proof.
  apply (launch_pair_ready 8 always_idle "sim" " --c=7" " --a=1" "1"
           {| probes := 0; trace := [] |} 0).
  vm_compute. lia.
Defined.

(** * The scoped change of directory *)

(** X24.  A [with cder(path)] block gives the working directory back:
    when entering [path] succeeds and the directory saved on entry can be
    entered again from wherever the body ended, the block ends in the
    directory it started from, with the outcome of the body, whether the
    body returned or raised and whatever directory changes it made. *)
Theorem with_cder_restores {A : Type} (fs : filesystem) (path cwd entered : string)
    (body : string -> string * result A) :
  chdir fs cwd path = Ok entered ->
  chdir fs (fst (body entered)) cwd = Ok cwd ->
  with_cder fs path body cwd = (cwd, snd (body entered)).
Proof.
  intros Hin Hout. unfold with_cder, cder_enter, cder_init, cder_exit.
  simpl. rewrite Hin.
  destruct (body entered) as [cwd2 r]. simpl in *. now rewrite Hout.
Qed.

Lemma with_cder_restores_witness :
  with_cder two_dirs "tmp" (fun d => ("/nowhere", Raise (A := unit) IndexError)) "/"
  = ("/", Raise IndexError).
Proof.
  apply (with_cder_restores two_dirs "tmp" "/" "/tmp"
           (fun d => ("/nowhere", Raise (A := unit) IndexError)));
    reflexivity.
Defined.
